(** * Time-frequency CSP decoding: a shallow embedding of
      [scripts/sensor/_03b_time_frequency_csp.py]

    The development follows the script top-down: label preparation,
    per-subject decoding, loading and stacking of the persisted scores,
    bootstrap confidence intervals and the group analysis.

    Conventions.
    - Python exceptions are values of [exn]; a call either [Returned] a
      value or [Raised] an exception.
    - Calls to the module logger are collected, in order, in a list of
      [log_entry].
    - NumPy float arrays are lists of [fl]: an exact rational or [NaN].
      NaN propagation is modelled.  Rounding is modelled where a decision
      of the code depends on it (the decimation ratio, in double
      precision); the reductions on score arrays are written in exact
      arithmetic. *)

From stdpp Require Import base decidable list gmap strings.
From Stdlib Require Import ZArith QArith Qround Qminmax Lia Lqa.

Open Scope Z_scope.

(** ** Exceptions and logging *)

Inductive exn : Type :=
| FileNotFoundError
| ValueError
| IndexError
| ZeroDivisionError
| NotFittedError
| OtherError (what : string).

Inductive outcome (A : Type) : Type :=
| Returned (a : A)
| Raised (e : exn).
Arguments Returned {A} a.
Arguments Raised {A} e.

Definition obind {A B : Type} (m : outcome A) (k : A → outcome B) : outcome B :=
  match m with
  | Returned a => k a
  | Raised e => Raised e
  end.

Inductive level : Type := Info | Warning | Critical.

(** The messages the script formats, with the values interpolated into
    them. *)
Inductive message : Type :=
| MsgBothSets (event_id : Z)
| MsgNeitherSet (event_id : Z)
| MsgRunningDecoding
| MsgDecimating (factor : Z)
| MsgReducingTo100
| MsgNewRank (rank : nat)
| MsgWindow (fmin fmax w_tmin w_tmax : Q)
| MsgRunningGroup
| MsgOneSubject
| MsgShapeMismatch (sub : string) (ses : option string)
| MsgNaNFound (sub : string) (ses : option string)
| MsgNaNInBins
| MsgPermutationsDone
| MsgFoundClusters (n : nat)
| MsgNotSignificant
| MsgSignificant
| MsgReportSaved
| MsgGroupFinished.

Record log_entry : Type := Log { log_level : level; log_msg : message }.

(** ** Epochs *)

(** A trial is a channel-by-time signal with its integer event code (the
    third column of [epochs.events]).  The signal type is left open. *)
Record trial (S : Type) : Type := Trial { code : Z; signal : S }.
Arguments Trial {S} code signal.
Arguments code {S} t.
Arguments signal {S} t.

Record Epochs (S : Type) : Type := MkEpochs { sfreq : Q; trials : list (trial S) }.
Arguments MkEpochs {S} sfreq trials.
Arguments sfreq {S} e.
Arguments trials {S} e.

(** A condition name is resolved by MNE, through [epochs.event_id], to the
    event codes it stands for; a condition is represented by these codes.
    A contrast is a pair of conditions. *)
Definition Condition : Type := list Z.
Definition ContrastT : Type := (Condition * Condition)%type.

(** [epochs[cond]] *)
Definition select_condition {S} (epochs : Epochs S) (cond : Condition) : Epochs S :=
  MkEpochs (sfreq epochs) (filter (λ t, code t ∈ cond) (trials epochs)).

(** [epochs[contrast]]: the trials of either condition *)
Definition select_contrast {S} (epochs : Epochs S) (contrast : ContrastT) : Epochs S :=
  MkEpochs (sfreq epochs)
           (filter (λ t, code t ∈ contrast.1 ∨ code t ∈ contrast.2) (trials epochs)).

(** [epochs.events[:, 2]] *)
Definition events {S} (epochs : Epochs S) : list Z := code <$> trials epochs.

(** ** [prepare_labels] *)

Module Labels.

(** One iteration of [for i in range(len(y))]. *)
Definition label_step (event_id_condition_0 event_id_condition_1 : gset Z)
    (st : list Z * list log_entry) (i : nat) : list Z * list log_entry :=
  let '(y, lg) := st in
  match y !! i with
  | None => st
  | Some yi =>
      if decide (yi ∈ event_id_condition_0 ∧ yi ∈ event_id_condition_1)
      then (y, lg ++ [Log Critical (MsgBothSets yi)])
      else if decide (yi ∈ event_id_condition_0) then (<[i:=0]> y, lg)
      else if decide (yi ∈ event_id_condition_1) then (<[i:=1]> y, lg)
      else (y, lg ++ [Log Critical (MsgNeitherSet yi)])
  end.

Definition prepare_labels {S} (epochs : Epochs S) (contrast : ContrastT)
    : outcome (list Z) * list log_entry :=
  let epochs_cond_0 := select_condition epochs contrast.1 in
  let event_id_condition_0 : gset Z := list_to_set (events epochs_cond_0) in
  let epochs_cond_1 := select_condition epochs contrast.2 in
  let event_id_condition_1 : gset Z := list_to_set (events epochs_cond_1) in
  let y := events epochs in
  let '(y', lg) :=
    foldl (label_step event_id_condition_0 event_id_condition_1)
          (y, []) (seq 0 (length y)) in
  (Returned y', lg).

(** What one entry becomes, and what is logged for it. *)
Definition label_of (s0 s1 : gset Z) (c : Z) : Z :=
  if decide (c ∈ s0 ∧ c ∈ s1) then c
  else if decide (c ∈ s0) then 0
  else if decide (c ∈ s1) then 1
  else c.

Definition complaint_of (s0 s1 : gset Z) (c : Z) : list log_entry :=
  if decide (c ∈ s0 ∧ c ∈ s1) then [Log Critical (MsgBothSets c)]
  else if decide (c ∈ s0) then []
  else if decide (c ∈ s1) then []
  else [Log Critical (MsgNeitherSet c)].

Lemma label_step_at (s0 s1 : gset Z) (done_ todo : list Z) (c : Z)
    (lg : list log_entry) :
  label_step s0 s1 (done_ ++ c :: todo, lg) (length done_)
  = ((done_ ++ [label_of s0 s1 c]) ++ todo, lg ++ complaint_of s0 s1 c).
Proof.
  unfold label_step, label_of, complaint_of.
  rewrite list_lookup_middle by done.
  assert (Hmid : ∀ v : Z, <[length done_:=v]> (done_ ++ c :: todo)
                          = (done_ ++ [v]) ++ todo).
  { intros v. rewrite insert_app_r_alt by lia.
    rewrite Nat.sub_diag. simpl. by rewrite <- app_assoc. }
  repeat case_decide; rewrite ?Hmid, ?app_nil_r; try done;
    by rewrite <- app_assoc.
Qed.

Lemma label_loop (s0 s1 : gset Z) (todo : list Z) :
  ∀ (done_ : list Z) (lg : list log_entry),
    foldl (label_step s0 s1) (done_ ++ todo, lg)
          (seq (length done_) (length todo))
    = (done_ ++ (label_of s0 s1 <$> todo),
       lg ++ concat (complaint_of s0 s1 <$> todo)).
Proof.
  induction todo as [|c todo IH]; intros done_ lg.
  - simpl. by rewrite !app_nil_r.
  - rewrite fmap_cons, fmap_cons. cbn [length seq foldl concat].
    rewrite label_step_at.
    replace (S (length done_)) with (length (done_ ++ [label_of s0 s1 c]))
      by (rewrite length_app; simpl; lia).
    rewrite IH. by rewrite <- !app_assoc.
Qed.

Definition present {S} (epochs : Epochs S) (cond : Condition) : gset Z :=
  list_to_set (events (select_condition epochs cond)).

Lemma prepare_labels_eq {S} (epochs : Epochs S) (contrast : ContrastT) :
  prepare_labels epochs contrast
  = (Returned (label_of (present epochs contrast.1) (present epochs contrast.2)
                 <$> events epochs),
     concat (complaint_of (present epochs contrast.1) (present epochs contrast.2)
               <$> events epochs)).
Proof.
  unfold prepare_labels.
  pose proof (label_loop (present epochs contrast.1) (present epochs contrast.2)
                (events epochs) [] []) as H.
  simpl in H. unfold present in H. by rewrite H.
Qed.

(** For a trial of [epochs], its code is among the codes present under a
    condition exactly when the condition stands for that code. *)
Lemma present_iff {S} (epochs : Epochs S) (cond : Condition) (t : trial S) :
  t ∈ trials epochs → (code t ∈ present epochs cond ↔ code t ∈ cond).
Proof.
  intros Ht. unfold present, events, select_condition. simpl.
  rewrite elem_of_list_to_set, list_elem_of_fmap. split.
  - intros (t' & Hc & Hin). apply list_elem_of_filter in Hin as [Hin _].
    by rewrite Hc.
  - intros Hc. exists t. split; [done|]. by apply list_elem_of_filter.
Qed.

(** The same, read off the contrast's own codes. *)
Definition label_in (contrast : ContrastT) (c : Z) : Z :=
  if decide (c ∈ contrast.1 ∧ c ∈ contrast.2) then c
  else if decide (c ∈ contrast.1) then 0
  else if decide (c ∈ contrast.2) then 1
  else c.

Definition complaint_in (contrast : ContrastT) (c : Z) : list log_entry :=
  if decide (c ∈ contrast.1 ∧ c ∈ contrast.2) then [Log Critical (MsgBothSets c)]
  else if decide (c ∈ contrast.1) then []
  else if decide (c ∈ contrast.2) then []
  else [Log Critical (MsgNeitherSet c)].

Definition is_raised {A} (o : outcome A) : bool :=
  match o with Raised _ => true | Returned _ => false end.

Lemma prepare_labels_spec {S} (epochs : Epochs S) (contrast : ContrastT) :
  prepare_labels epochs contrast
  = (Returned (label_in contrast <$> events epochs),
     concat (complaint_in contrast <$> events epochs)).
Proof.
  rewrite prepare_labels_eq. unfold events.
  rewrite <- !list_fmap_compose.
  assert (Hl : ∀ t, t ∈ trials epochs →
            label_of (present epochs contrast.1) (present epochs contrast.2) (code t)
            = label_in contrast (code t)
            ∧ complaint_of (present epochs contrast.1) (present epochs contrast.2) (code t)
              = complaint_in contrast (code t)).
  { intros t Ht. unfold label_of, label_in, complaint_of, complaint_in.
    pose proof (present_iff epochs contrast.1 t Ht) as H1.
    pose proof (present_iff epochs contrast.2 t Ht) as H2.
    repeat case_decide; tauto. }
  f_equal; [f_equal|f_equal]; apply list_fmap_ext; intros i t Hi; simpl;
    apply list_elem_of_lookup_2 in Hi; by destruct (Hl t Hi).
Qed.

(** C1 (what the code does).  When [prepare_labels] returns, a trial whose
    event code is in both conditions' sets, or in neither, has only been
    reported by a critical log entry: the function went on, and the trial's
    entry of the returned vector is its event code. *)
Theorem prepare_labels_logs_and_returns {S} (epochs : Epochs S) (contrast : ContrastT)
    (y : list Z) (lg : list log_entry) (i : nat) (t : trial S) :
  prepare_labels epochs contrast = (Returned y, lg) →
  trials epochs !! i = Some t →
  (code t ∈ contrast.1 ∧ code t ∈ contrast.2 →
     y !! i = Some (code t) ∧ Log Critical (MsgBothSets (code t)) ∈ lg)
  ∧ ((code t ∉ contrast.1) ∧ (code t ∉ contrast.2) →
     y !! i = Some (code t) ∧ Log Critical (MsgNeitherSet (code t)) ∈ lg).
Proof.
  rewrite prepare_labels_spec. intros [= <- <-] Hi.
  assert (Hy : (label_in contrast <$> events epochs) !! i
               = Some (label_in contrast (code t))).
  { unfold events. by rewrite !list_lookup_fmap, Hi. }
  assert (Hin : ∀ e, e ∈ complaint_in contrast (code t) →
                  e ∈ concat (complaint_in contrast <$> events epochs)).
  { intros e He. apply list_elem_of_In, in_concat.
    exists (complaint_in contrast (code t)). split; [|by apply list_elem_of_In].
    apply list_elem_of_In, list_elem_of_fmap. exists (code t). split; [done|].
    unfold events. apply list_elem_of_fmap. exists t. split; [done|].
    by eapply list_elem_of_lookup_2. }
  split; intros [H1 H2]; (split; [rewrite Hy; f_equal|apply Hin]);
    unfold label_in, complaint_in; repeat case_decide; try tauto;
    apply list_elem_of_here.
Qed.

(** Three trials with the event codes 5, 6 and 5, and a contrast whose first
    condition stands for the codes 5 and 6 and whose second condition stands
    for the code 5 (with hierarchical event names, the conditions ["face"]
    and ["face/famous"]): the code 5 is in both sets. *)
Definition overlap_epochs : Epochs unit :=
  MkEpochs 1000 [Trial 5 tt; Trial 6 tt; Trial 5 tt].
Definition overlap_contrast : ContrastT := ([5; 6], [5]).

(** On this input the function returns; the overlap is logged twice and
    nothing is raised. *)
Lemma prepare_labels_logs_and_returns_witness :
  prepare_labels overlap_epochs overlap_contrast
  = (Returned [5; 0; 5],
     [Log Critical (MsgBothSets 5); Log Critical (MsgBothSets 5)])
  ∧ is_raised (prepare_labels overlap_epochs overlap_contrast).1 = false
  ∧ [5; 0; 5] !! 0%nat = Some 5
  ∧ Log Critical (MsgBothSets 5)
    ∈ [Log Critical (MsgBothSets 5); Log Critical (MsgBothSets 5)].
Proof.
  assert (Hrun : prepare_labels overlap_epochs overlap_contrast
                 = (Returned [5; 0; 5],
                    [Log Critical (MsgBothSets 5); Log Critical (MsgBothSets 5)]))
    by (rewrite prepare_labels_spec; vm_compute; reflexivity).
  split; [exact Hrun|]. split; [by rewrite Hrun|].
  apply (prepare_labels_logs_and_returns overlap_epochs overlap_contrast
           [5; 0; 5] [Log Critical (MsgBothSets 5); Log Critical (MsgBothSets 5)]
           0 (Trial 5 tt) Hrun eq_refl).
  split; apply list_elem_of_here.
Defined.

(** C7 (what the code does).  When [prepare_labels] returns, the vector has
    one entry per trial, in trial order.  The entry of a trial whose event
    code is in exactly one of the two sets is 0 (first condition) or 1
    (second condition); the entry of a trial whose code is in both sets or
    in neither is its event code. *)
Theorem prepare_labels_entries {S} (epochs : Epochs S) (contrast : ContrastT)
    (y : list Z) (lg : list log_entry) (i : nat) (t : trial S) :
  prepare_labels epochs contrast = (Returned y, lg) →
  trials epochs !! i = Some t →
  length y = length (trials epochs)
  ∧ (code t ∈ contrast.1 → code t ∉ contrast.2 → y !! i = Some 0)
  ∧ (code t ∉ contrast.1 → code t ∈ contrast.2 → y !! i = Some 1)
  ∧ (code t ∈ contrast.1 ∧ code t ∈ contrast.2
     ∨ (code t ∉ contrast.1) ∧ (code t ∉ contrast.2) → y !! i = Some (code t)).
Proof.
  rewrite prepare_labels_spec. intros [= <- <-] Hi.
  split; [unfold events; by rewrite !length_fmap|].
  assert (Hy : (label_in contrast <$> events epochs) !! i
               = Some (label_in contrast (code t))).
  { unfold events. by rewrite !list_lookup_fmap, Hi. }
  rewrite Hy. unfold label_in.
  repeat split; intros; repeat case_decide; try tauto; f_equal; tauto.
Qed.

(** On the overlapping contrast the first trial is labelled 5: neither 0
    nor 1. *)
Lemma prepare_labels_entries_witness :
  (prepare_labels overlap_epochs overlap_contrast).1 = Returned [5; 0; 5]
  ∧ length [5; 0; 5] = length (trials overlap_epochs)
  ∧ [5; 0; 5] !! 0%nat = Some 5
  ∧ [5; 0; 5] !! 1%nat = Some 0.
Proof.
  assert (Hrun : prepare_labels overlap_epochs overlap_contrast
                 = (Returned [5; 0; 5],
                    [Log Critical (MsgBothSets 5); Log Critical (MsgBothSets 5)]))
    by (rewrite prepare_labels_spec; vm_compute; reflexivity).
  split; [by rewrite Hrun|].
  pose proof (prepare_labels_entries overlap_epochs overlap_contrast
                [5; 0; 5] [Log Critical (MsgBothSets 5); Log Critical (MsgBothSets 5)]
                0 (Trial 5 tt) Hrun eq_refl) as (Hlen & _ & _ & Hraw).
  split; [exact Hlen|]. split.
  - apply Hraw. left. split;
      [apply list_elem_of_here|apply list_elem_of_here].
  - reflexivity.
Defined.

(** *** Further properties of [prepare_labels] *)

Lemma concat_nil_iff {A} (ls : list (list A)) : concat ls = [] ↔ Forall (λ l, l = []) ls.
Proof.
  induction ls as [|l ls IH]; simpl.
  - split; [constructor|done].
  - split.
    + intros H. apply app_eq_nil in H as [-> H]. constructor; [done|by apply IH].
    + intros H. apply Forall_cons in H as [-> H]. by apply IH.
Qed.

Lemma complaint_in_nil (contrast : ContrastT) (c : Z) :
  complaint_in contrast c = []
  ↔ (c ∈ contrast.1 ∧ c ∉ contrast.2) ∨ ((c ∉ contrast.1) ∧ c ∈ contrast.2).
Proof. unfold complaint_in. repeat case_decide; split; intros Hc; try done; tauto. Qed.

(** X1.  Nothing is logged exactly when the contrast partitions the trials:
    every trial's event code is in one of the two sets and not in the
    other. *)
Theorem prepare_labels_silent_iff {S} (epochs : Epochs S) (contrast : ContrastT) :
  (prepare_labels epochs contrast).2 = []
  ↔ ∀ t, t ∈ trials epochs →
      (code t ∈ contrast.1 ∧ code t ∉ contrast.2)
      ∨ ((code t ∉ contrast.1) ∧ code t ∈ contrast.2).
Proof.
  rewrite prepare_labels_spec. cbn [snd]. rewrite concat_nil_iff, Forall_fmap.
  unfold events. rewrite Forall_fmap, Forall_forall. unfold compose.
  split; intros H t Ht; apply complaint_in_nil, H, Ht.
Qed.

End Labels.

(** ** NumPy reductions on float arrays

    A float is an exact rational or NaN.  The reductions below follow
    NumPy's semantics for NaN: [mean], [min], [max], [var] and [quantile]
    return NaN as soon as one entry is NaN, [nanmean] skips NaN entries. *)

Module Np.

Inductive fl : Type := NaN | Fin (q : Q).

Definition isnan (x : fl) : bool :=
  match x with NaN => true | Fin _ => false end.

(** Equality of floats up to the representation of the rational. *)
Definition fl_eq (a b : fl) : Prop :=
  match a, b with
  | NaN, NaN => True
  | Fin p, Fin q => (p == q)%Q
  | _, _ => False
  end.


(** The entries of an array, when none of them is NaN. *)
Fixpoint all_fin (l : list fl) : option (list Q) :=
  match l with
  | [] => Some []
  | NaN :: _ => None
  | Fin q :: l' =>
      match all_fin l' with
      | Some qs => Some (q :: qs)
      | None => None
      end
  end.

Definition Qsum (qs : list Q) : Q := foldr Qplus 0%Q qs.

Definition Qlen (qs : list Q) : Q := inject_Z (Z.of_nat (length qs)).

(** [np.mean]: NaN on an empty array (0/0). *)
Definition mean (l : list fl) : fl :=
  match all_fin l with
  | Some (q :: qs) => Fin (Qsum (q :: qs) / Qlen (q :: qs))
  | _ => NaN
  end.

(** [np.nanmean]: NaN entries are replaced by 0 for the sum and are not
    counted; NaN when nothing is counted. *)
Definition nan_to_zero (x : fl) : Q :=
  match x with NaN => 0%Q | Fin q => q end.

Definition count_not_nan (l : list fl) : nat :=
  length (filter (λ x, isnan x = false) l).

Definition nanmean (l : list fl) : fl :=
  let tot := Qsum (nan_to_zero <$> l) in
  let cnt := count_not_nan l in
  if decide (cnt = 0%nat) then NaN
  else Fin (tot / inject_Z (Z.of_nat cnt)).

Definition Qminimum (q : Q) (qs : list Q) : Q := foldr Qmin q qs.
Definition Qmaximum (q : Q) (qs : list Q) : Q := foldr Qmax q qs.

(** The result of [ndarray.min] and [ndarray.max] over a non-empty axis:
    NaN as soon as one entry is NaN. *)
Definition minimum_of (l : list fl) : fl :=
  match all_fin l with
  | Some (q :: qs) => Fin (Qminimum q qs)
  | _ => NaN
  end.

Definition maximum_of (l : list fl) : fl :=
  match all_fin l with
  | Some (q :: qs) => Fin (Qmaximum q qs)
  | _ => NaN
  end.

(** [ndarray.var(ddof=1)], the square of [ndarray.std(ddof=1)]: the sum of
    squared deviations from the mean over [n - 1]; NaN when [n <= 1]. *)
Definition var_ddof1 (l : list fl) : fl :=
  match all_fin l with
  | Some (q1 :: q2 :: qs) =>
      let xs := q1 :: q2 :: qs in
      let m := (Qsum xs / Qlen xs)%Q in
      Fin (Qsum ((λ x, (x - m) * (x - m))%Q <$> xs)
           / inject_Z (Z.of_nat (length xs) - 1))
  | _ => NaN
  end.

(** Sorting, as [np.quantile] needs it. *)
Fixpoint insert_sorted (x : Q) (l : list Q) : list Q :=
  match l with
  | [] => [x]
  | y :: l' => if Qle_bool x y then x :: y :: l' else y :: insert_sorted x l'
  end.

Definition sort (l : list Q) : list Q := foldr insert_sorted [] l.

(** [np.quantile(a, q)] with the default linear interpolation: the virtual
    index is [q * (n - 1)], and the result interpolates between the two
    neighbouring order statistics.  It is used on the bootstrapped means,
    a non-empty array as soon as [n_boot] is positive. *)
Definition lerp (a b t : Q) : Q := (a + (b - a) * t)%Q.

Definition quantile_sorted (a : list Q) (q : Q) : Q :=
  let n := length a in
  let virtual_index := (q * inject_Z (Z.of_nat n - 1))%Q in
  let previous := Z.to_nat (Qfloor virtual_index) in
  let next := Nat.min (S previous) (n - 1) in
  let gamma := (virtual_index - inject_Z (Z.of_nat previous))%Q in
  lerp (nth previous a 0%Q) (nth next a 0%Q) gamma.

Definition quantile (l : list fl) (q : Q) : fl :=
  match all_fin l with
  | Some (x :: xs) => Fin (quantile_sorted (sort (x :: xs)) q)
  | _ => NaN
  end.

(** [np.isnan(arr).any()] *)
Definition any_nan (l : list fl) : bool := existsb isnan l.

(** Column [j] of a two-dimensional array given by its rows:
    [a[:, j]]. *)
Definition column (a : list (list fl)) (j : nat) : list fl :=
  (λ row, nth j row NaN) <$> a.

(** *** Double precision

    Where a result depends on how a quotient or a product is rounded, the
    arithmetic of IEEE 754 doubles is written out: the exact result of one
    operation is rounded to the nearest double, ties to the even mantissa,
    with 53 bits of mantissa and gradual underflow.  Overflow is not
    modelled. *)

(** [2 ** e] *)
Definition pow2 (e : Z) : Q :=
  if (0 <=? e)%Z then inject_Z (2 ^ e) else / inject_Z (2 ^ (- e)).

(** The exponent of the leading bit of a positive rational:
    [floor(log2(q))]. *)
Definition ilog2 (q : Q) : Z :=
  let k := (Z.log2 (Qnum q) - Z.log2 (Zpos (Qden q)))%Z in
  if Qle_bool (pow2 k) q then k else (k - 1)%Z.

(** Rounding to the nearest integer, ties to even. *)
Definition round_half_even (q : Q) : Z :=
  let f := Qfloor q in
  match (q - inject_Z f ?= 1 # 2)%Q with
  | Lt => f
  | Gt => (f + 1)%Z
  | Eq => if Z.even f then f else (f + 1)%Z
  end.

Definition float64_pos (q : Q) : Q :=
  let e := Z.max (ilog2 q - 52) (-1074) in
  (inject_Z (round_half_even (q / pow2 e)) * pow2 e)%Q.

(** The double nearest to [q]. *)
Definition float64 (q : Q) : Q :=
  match Qnum q with
  | Z0 => 0%Q
  | Zpos _ => float64_pos q
  | Zneg _ => (- float64_pos (- q))%Q
  end.

End Np.

(** ** Configuration and the frequency/time grid *)

Definition SessionT : Type := option string.

(** The fields of [cfg] the script reads. *)
Record Config : Type := MkConfig {
  datatype : string;
  csp_quick : bool;
  n_boot : nat;
  n_permutations : nat;
  random_state : option Z;
  cluster_stats_alpha : Q;
  cluster_t_dist_alpha_thres : Q
}.

(** Modelled from the spec: the class [Tf] of [config] is not part of the
    sources at hand.  It holds the frequency and time bin edges; the number
    of windows is one less than the number of edges, and the windows are the
    pairs of consecutive edges. *)
Record Tf : Type := MkTf { freqs : list Q; times : list Q }.

Definition n_freq_windows (tf : Tf) : nat := length (freqs tf) - 1.
Definition n_time_windows (tf : Tf) : nat := length (times tf) - 1.
Definition freq_ranges (tf : Tf) : list (Q * Q) := zip (freqs tf) (tail (freqs tf)).
Definition time_ranges (tf : Tf) : list (Q * Q) := zip (times tf) (tail (times tf)).

(** ROC-AUC chance score level *)
Definition chance : Q := 1 # 2.

(** ** Decoding one subject: [prepare_epochs_and_y] and
       [one_subject_decoding] *)

Module Decoding.

(** [csp_use_pca = True] *)
Definition csp_use_pca : bool := true.

(** The operations on the data and the estimators, in the order in which
    the function performs them. *)
Inductive op : Type :=
| OpDecimate (factor : Z)
| OpPcaFitTransform (freq : nat)
| OpPcaTransform (freq t : nat)
| OpCrossValScore (freq : nat) (t : option nat)
| OpCspFit (freq t : nat).

(** The three arrays the function saves. *)
Record ScoreArtifact : Type := MkArtifact {
  freq_scores : list Np.fl;
  freq_scores_std : list Np.fl;
  tf_scores : list (list Np.fl)
}.

(** [int(x)]: truncation towards zero. *)
Definition int_of (x : Q) : Z := Z.quot (Qnum x) (Zpos (Qden x)).

(** [sfreq / (3 * fmax)], in double precision: [epochs.info["sfreq"]] and
    [tf.freqs[-1]] are doubles (a rational that is not one stands for the
    double nearest to it, as a decimal literal does), and the product and
    the quotient are each rounded. *)
Definition decimation_needed (sfreq_ fmax : Q) : Q :=
  Np.float64 (Np.float64 sfreq_ / Np.float64 (3 * Np.float64 fmax)).

Definition Qlt_bool (a b : Q) : bool := negb (Qle_bool b a).

Section Decoding.

(** The signal of one trial, and what MNE, scikit-learn and NumPy do to it:
    channel picking, band-pass filtering, decimation, cropping, rank
    estimation, the PCA basis, cross-validated scoring and the reductions of
    the fold scores. *)
Variable Signal : Type.
Variable pick_data_channels : Signal → Signal.
Variable pick_mag : Signal → Signal.
Variable bandpass : Q → Q → Signal → Signal.
Variable decimate_signal : Z → Signal → Signal.
Variable crop_signal : Q → Q → Signal → Signal.
Variable compute_rank : Epochs Signal → list (string * nat).
Variable basis : Type.
Variable pca_fit : nat → list Signal → basis.
Variable pca_apply : basis → list Signal → list Signal.
Variable cross_val_score : list Signal → list Z → list Np.fl.
Variable np_std : list Np.fl → Np.fl.

(** Modelled from the spec: [Tf.check_csp_times] belongs to [config], which
    is not part of the sources at hand.  It fails when a requested time
    window falls outside the time extent of the epochs. *)
Variable check_csp_times : Tf → Epochs Signal → outcome unit.

Definition map_signals (f : Signal → Signal) (epochs : Epochs Signal) : Epochs Signal :=
  MkEpochs (sfreq epochs) ((λ t, Trial (code t) (f (signal t))) <$> trials epochs).

(** [epochs.get_data()] *)
Definition get_data (epochs : Epochs Signal) : list Signal := signal <$> trials epochs.

(** [epochs.decimate(k)]: every [k]-th sample is kept and the sampling
    rate is divided by [k]. *)
Definition decimate (k : Z) (epochs : Epochs Signal) : Epochs Signal :=
  MkEpochs (Np.float64 (sfreq epochs / inject_Z k))
           ((λ t, Trial (code t) (decimate_signal k (signal t))) <$> trials epochs).

Definition prepare_epochs_and_y (epochs : Epochs Signal) (contrast : ContrastT)
    (cfg : Config) (fmin fmax : Q)
    : Epochs Signal * outcome (list Z) * list log_entry :=
  let epochs_filter := map_signals pick_data_channels epochs in
  let epochs_filter :=
    if decide (datatype cfg = "meg"%string)
    then map_signals pick_mag epochs_filter else epochs_filter in
  let epochs_filter := select_contrast epochs_filter contrast in
  let epochs_filter := map_signals (bandpass fmin fmax) epochs_filter in
  let '(y, lg) := Labels.prepare_labels epochs_filter contrast in
  (epochs_filter, y, lg).

(** The objects the loops of [one_subject_decoding] update: the PCA
    estimator (its basis once fitted), the three score arrays, the log and
    the operations performed; [raised] holds the exception that stopped the
    loops, if any. *)
Record loop_state : Type := MkLoop {
  pca : option basis;
  st_freq_scores : list Np.fl;
  st_freq_scores_std : list Np.fl;
  st_tf_scores : list (list Np.fl);
  st_log : list log_entry;
  st_ops : list op;
  raised : option exn
}.

Definition raise_in (st : loop_state) (lg : list log_entry) (e : exn) : loop_state :=
  MkLoop (pca st) (st_freq_scores st) (st_freq_scores_std st) (st_tf_scores st)
         (st_log st ++ lg) (st_ops st) (Some e).

(** One iteration of [for t, (w_tmin, w_tmax) in enumerate(tf.time_ranges)]. *)
Definition time_step (freq : nat) (fmin fmax : Q) (epochs_filter : Epochs Signal)
    (y : list Z) (st : loop_state) (item : nat * (Q * Q)) : loop_state :=
  match raised st with
  | Some _ => st
  | None =>
      let '(t, (w_tmin, w_tmax)) := item in
      let lg := [Log Info (MsgWindow fmin fmax w_tmin w_tmax)] in
      (* Crop data into time window of interest *)
      let X := get_data (map_signals (crop_signal w_tmin w_tmax) epochs_filter) in
      let transformed : outcome (list Signal * list op) :=
        if csp_use_pca
        then match pca st with
             | Some b => Returned (pca_apply b X, [OpPcaTransform freq t])
             | None => Raised NotFittedError
             end
        else Returned (X, []) in
      match transformed with
      | Raised e => raise_in st lg e
      | Returned (X_pca, ops1) =>
          let cv_scores := cross_val_score X_pca y in
          MkLoop (pca st) (st_freq_scores st) (st_freq_scores_std st)
                 (alter (λ row, <[t := Np.mean cv_scores]> row) freq (st_tf_scores st))
                 (st_log st ++ lg)
                 (st_ops st ++ ops1
                  ++ [OpCrossValScore freq (Some t); OpCspFit freq t])
                 None
      end
  end.

(** One iteration of [for freq, (fmin, fmax) in enumerate(tf.freq_ranges)]. *)
Definition freq_step (cfg : Config) (tf : Tf) (rank : nat) (epochs : Epochs Signal)
    (contrast : ContrastT) (st : loop_state) (item : nat * (Q * Q)) : loop_state :=
  match raised st with
  | Some _ => st
  | None =>
      let '(freq, (fmin, fmax)) := item in
      let '(epochs_filter, y_, lg1) := prepare_epochs_and_y epochs contrast cfg fmin fmax in
      match y_ with
      | Raised e => raise_in st lg1 e
      | Returned y =>
          (* 1. Loop through frequencies, apply classifier and save scores *)
          let X := get_data epochs_filter in
          let '(pca1, X_pca, ops1) :=
            if csp_use_pca
            then let b := pca_fit rank X in
                 (Some b, pca_apply b X, [OpPcaFitTransform freq])
            else (pca st, X, []) in
          let cv_scores := cross_val_score X_pca y in
          let st1 :=
            MkLoop pca1
                   (<[freq := Np.mean cv_scores]> (st_freq_scores st))
                   (<[freq := np_std cv_scores]> (st_freq_scores_std st))
                   (st_tf_scores st)
                   (st_log st ++ lg1)
                   (st_ops st ++ ops1 ++ [OpCrossValScore freq None])
                   None in
          (* 2. Loop through frequencies and time *)
          foldl (time_step freq fmin fmax epochs_filter y) st1
                (zip (seq 0 (length (time_ranges tf))) (time_ranges tf))
      end
  end.

(** [min(rank_dic, key=rank_dic.get)] followed by [rank_dic[ch_type]]: the
    smallest rank; [ValueError] on an empty dictionary. *)
Definition smallest_rank (rank_dic : list (string * nat)) : outcome nat :=
  match rank_dic with
  | [] => Raised ValueError
  | (_, r) :: rest => Returned (foldl Nat.min r (snd <$> rest))
  end.

(** The decimation step: the epochs the rest of the function works on, what
    is logged and what is done. *)
Definition decimation_step (cfg : Config) (fmax : Q) (epochs : Epochs Signal)
    : Epochs Signal * list log_entry * list op :=
  let needed := decimation_needed (sfreq epochs) fmax in
  if Qlt_bool 2 needed && csp_quick cfg
  then (decimate (int_of needed) epochs,
        [Log Info (MsgDecimating (int_of needed))],
        [OpDecimate (int_of needed)])
  else (epochs, [], []).

(** [one_subject_decoding], from the epochs read from disk on: the result,
    the log and the operations performed.  A maximal frequency of zero makes
    the division fail; it is outside the grids the function is meant for. *)
Definition one_subject_decoding (cfg : Config) (tf : Tf) (epochs : Epochs Signal)
    (contrast : ContrastT)
    : outcome ScoreArtifact * list log_entry * list op :=
  let lg := [Log Info MsgRunningDecoding] in
  match check_csp_times tf epochs with
  | Raised e => (Raised e, lg, [])
  | Returned _ =>
  (* Compute maximal decimation possible *)
  match last (freqs tf) with
  | None => (Raised IndexError, lg, [])
  | Some fmax =>
  if Qeq_bool (3 * fmax) 0 then (Raised ZeroDivisionError, lg, []) else
  let '(epochs, lg0, ops0) := decimation_step cfg fmax epochs in
  (* Chosing the right rank *)
  match smallest_rank (compute_rank epochs) with
  | Raised e => (Raised e, lg ++ lg0, ops0)
  | Returned rank0 =>
  let '(rank, lg1) :=
    if decide (100 < rank0)%nat then (100%nat, [Log Info MsgReducingTo100])
    else (rank0, []) in
  let st0 :=
    MkLoop None
           (replicate (n_freq_windows tf) (Np.Fin 0))
           (replicate (n_freq_windows tf) (Np.Fin 0))
           (replicate (n_freq_windows tf) (replicate (n_time_windows tf) (Np.Fin 0)))
           (lg ++ lg0 ++ lg1 ++ [Log Info (MsgNewRank rank)])
           ops0 None in
  let st :=
    foldl (freq_step cfg tf rank epochs contrast) st0
          (zip (seq 0 (length (freq_ranges tf))) (freq_ranges tf)) in
  match raised st with
  | Some e => (Raised e, st_log st, st_ops st)
  | None =>
      (* plot_time_frequency_decoding reports NaN scores *)
      let lg2 := if Np.any_nan (concat (st_tf_scores st))
                 then [Log Info MsgNaNInBins] else [] in
      (Returned (MkArtifact (st_freq_scores st) (st_freq_scores_std st)
                            (st_tf_scores st)),
       st_log st ++ lg2, st_ops st)
  end
  end end end.

(** *** What the loops compute *)

(** The epochs and the labels of one frequency band. *)
Definition band_epochs (cfg : Config) (contrast : ContrastT) (epochs : Epochs Signal)
    (band : Q * Q) : Epochs Signal :=
  (prepare_epochs_and_y epochs contrast cfg band.1 band.2).1.1.

Definition band_labels (cfg : Config) (contrast : ContrastT) (epochs : Epochs Signal)
    (band : Q * Q) : list Z :=
  Labels.label_in contrast <$> events (band_epochs cfg contrast epochs band).

Definition band_log (cfg : Config) (contrast : ContrastT) (epochs : Epochs Signal)
    (band : Q * Q) : list log_entry :=
  concat (Labels.complaint_in contrast <$> events (band_epochs cfg contrast epochs band)).

Lemma prepare_epochs_and_y_eq (epochs : Epochs Signal) (contrast : ContrastT)
    (cfg : Config) (band : Q * Q) :
  prepare_epochs_and_y epochs contrast cfg band.1 band.2
  = (band_epochs cfg contrast epochs band,
     Returned (band_labels cfg contrast epochs band),
     band_log cfg contrast epochs band).
Proof.
  unfold band_labels, band_log, band_epochs, prepare_epochs_and_y.
  by rewrite Labels.prepare_labels_spec.
Qed.

(** The basis fitted in a band: on the full, un-cropped data of the band. *)
Definition band_basis (rank : nat) (cfg : Config) (contrast : ContrastT)
    (epochs : Epochs Signal) (band : Q * Q) : basis :=
  pca_fit rank (get_data (band_epochs cfg contrast epochs band)).

(** The score of one time window, for the basis [b] at hand. *)
Definition window_cell (b : basis) (epochs_filter : Epochs Signal) (y : list Z)
    (w : Q * Q) : Np.fl :=
  Np.mean (cross_val_score
             (pca_apply b (get_data (map_signals (crop_signal w.1 w.2) epochs_filter)))
             y).

Definition window_ops (freq t : nat) : list op :=
  [OpPcaTransform freq t; OpCrossValScore freq (Some t); OpCspFit freq t].

Definition band_ops (nt freq : nat) : list op :=
  [OpPcaFitTransform freq; OpCrossValScore freq None]
  ++ flat_map (window_ops freq) (seq 0 nt).

Definition window_msg (band w : Q * Q) : log_entry :=
  Log Info (MsgWindow band.1 band.2 w.1 w.2).

Lemma insert_middle {A} (l1 l2 : list A) (x v : A) :
  <[length l1 := v]> (l1 ++ x :: l2) = l1 ++ v :: l2.
Proof. rewrite insert_app_r_alt by lia. by rewrite Nat.sub_diag. Qed.

Lemma alter_middle {A} (f : A → A) (l1 l2 : list A) (x : A) :
  alter f (length l1) (l1 ++ x :: l2) = l1 ++ f x :: l2.
Proof. rewrite alter_app_r_alt by lia. by rewrite Nat.sub_diag. Qed.

Lemma time_loop (freq : nat) (band : Q * Q) (epochs_filter : Epochs Signal)
    (y : list Z) (b : basis) (fsc fstd : list Np.fl)
    (rows_before rows_after : list (list Np.fl)) (windows : list (Q * Q)) :
  length rows_before = freq →
  ∀ (done_cells rest_cells : list Np.fl) (lg : list log_entry) (ops : list op),
    length rest_cells = length windows →
    foldl (time_step freq band.1 band.2 epochs_filter y)
          (MkLoop (Some b) fsc fstd
                  (rows_before ++ (done_cells ++ rest_cells) :: rows_after)
                  lg ops None)
          (zip (seq (length done_cells) (length windows)) windows)
    = MkLoop (Some b) fsc fstd
             (rows_before
              ++ (done_cells ++ (window_cell b epochs_filter y <$> windows))
              :: rows_after)
             (lg ++ (window_msg band <$> windows))
             (ops ++ flat_map (window_ops freq)
                              (seq (length done_cells) (length windows)))
             None.
Proof.
  intros Hfreq. induction windows as [|[w_tmin w_tmax] windows IH];
    intros done_cells rest_cells lg ops Hlen.
  - destruct rest_cells; [|done]. simpl. by rewrite !app_nil_r.
  - destruct rest_cells as [|c rest_cells]; [done|]. simpl in Hlen.
    cbn [length seq zip zip_with foldl].
    unfold time_step at 2. cbn [raised pca st_freq_scores st_freq_scores_std
                                st_tf_scores st_log st_ops csp_use_pca].
    rewrite <- Hfreq, alter_middle, insert_middle, Hfreq.
    replace (done_cells ++ Np.mean
               (cross_val_score
                  (pca_apply b (get_data (map_signals (crop_signal w_tmin w_tmax)
                                            epochs_filter))) y) :: rest_cells)
      with ((done_cells ++ [window_cell b epochs_filter y (w_tmin, w_tmax)])
            ++ rest_cells)
      by (by rewrite <- app_assoc).
    replace (S (length done_cells))
      with (length (done_cells ++ [window_cell b epochs_filter y (w_tmin, w_tmax)]))
      by (rewrite length_app; simpl; lia).
    rewrite IH by lia.
    rewrite length_app. cbn [length]. rewrite Nat.add_1_r.
    cbn [flat_map fmap list_fmap]. f_equal.
    + by rewrite <- !app_assoc.
    + by rewrite <- !app_assoc.
    + unfold window_ops at 2. by rewrite <- !app_assoc.
Qed.

(** The estimator after the bands: the basis of the last band. *)
Definition final_pca (rank : nat) (cfg : Config) (contrast : ContrastT)
    (epochs : Epochs Signal) (p : option basis) (bands : list (Q * Q)) : option basis :=
  foldl (λ _ band, Some (band_basis rank cfg contrast epochs band)) p bands.

Definition band_mean (rank : nat) (cfg : Config) (contrast : ContrastT)
    (epochs : Epochs Signal) (band : Q * Q) : list Np.fl :=
  cross_val_score
    (pca_apply (band_basis rank cfg contrast epochs band)
               (get_data (band_epochs cfg contrast epochs band)))
    (band_labels cfg contrast epochs band).

Definition band_row (rank : nat) (cfg : Config) (tf : Tf) (contrast : ContrastT)
    (epochs : Epochs Signal) (band : Q * Q) : list Np.fl :=
  window_cell (band_basis rank cfg contrast epochs band)
              (band_epochs cfg contrast epochs band)
              (band_labels cfg contrast epochs band)
  <$> time_ranges tf.

Definition band_msgs (cfg : Config) (tf : Tf) (contrast : ContrastT)
    (epochs : Epochs Signal) (band : Q * Q) : list log_entry :=
  band_log cfg contrast epochs band ++ (window_msg band <$> time_ranges tf).

Lemma freq_loop (cfg : Config) (tf : Tf) (rank : nat) (epochs : Epochs Signal)
    (contrast : ContrastT) (bands : list (Q * Q)) :
  ∀ (p : option basis) (done_f rest_f done_sd rest_sd : list Np.fl)
    (done_rows rest_rows : list (list Np.fl)) (lg : list log_entry) (ops : list op),
    length rest_f = length bands →
    length rest_sd = length bands →
    length rest_rows = length bands →
    Forall (λ row, length row = length (time_ranges tf)) rest_rows →
    length done_sd = length done_f →
    length done_rows = length done_f →
    foldl (freq_step cfg tf rank epochs contrast)
          (MkLoop p (done_f ++ rest_f) (done_sd ++ rest_sd) (done_rows ++ rest_rows)
                  lg ops None)
          (zip (seq (length done_f) (length bands)) bands)
    = MkLoop (final_pca rank cfg contrast epochs p bands)
             (done_f ++ ((λ band, Np.mean (band_mean rank cfg contrast epochs band))
                         <$> bands))
             (done_sd ++ ((λ band, np_std (band_mean rank cfg contrast epochs band))
                          <$> bands))
             (done_rows ++ (band_row rank cfg tf contrast epochs <$> bands))
             (lg ++ flat_map (band_msgs cfg tf contrast epochs) bands)
             (ops ++ flat_map (band_ops (length (time_ranges tf)))
                              (seq (length done_f) (length bands)))
             None.
Proof.
  induction bands as [|band bands IH];
    intros p done_f rest_f done_sd rest_sd done_rows rest_rows lg ops
           Hf Hsd Hrows Hall Hdsd Hdrows.
  - destruct rest_f, rest_sd, rest_rows; try done. simpl. by rewrite !app_nil_r.
  - destruct rest_f as [|f0 rest_f]; [done|].
    destruct rest_sd as [|sd0 rest_sd]; [done|].
    destruct rest_rows as [|row0 rest_rows]; [done|].
    apply Forall_cons in Hall as [Hrow0 Hall].
    simpl in Hf, Hsd, Hrows.
    cbn [length seq zip zip_with foldl].
    unfold freq_step at 2. cbn [raised].
    destruct band as [fmin fmax].
    pose proof (prepare_epochs_and_y_eq epochs contrast cfg (fmin, fmax)) as Hprep.
    cbn [fst snd] in Hprep. rewrite Hprep.
    cbn [pca st_freq_scores st_freq_scores_std st_tf_scores st_log st_ops csp_use_pca].
    rewrite insert_middle. rewrite <- Hdsd, insert_middle, Hdsd.
    pose proof (time_loop (length done_f) (fmin, fmax)
                  (band_epochs cfg contrast epochs (fmin, fmax))
                  (band_labels cfg contrast epochs (fmin, fmax))
                  (pca_fit rank (get_data (band_epochs cfg contrast epochs (fmin, fmax))))
                  (done_f ++ Np.mean (band_mean rank cfg contrast epochs (fmin, fmax))
                          :: rest_f)
                  (done_sd ++ np_std (band_mean rank cfg contrast epochs (fmin, fmax))
                           :: rest_sd)
                  done_rows rest_rows (time_ranges tf) Hdrows [] row0) as Htime.
    cbn [fst snd app length] in Htime.
    unfold band_mean, band_basis in *.
    rewrite Htime by done. clear Htime.
    replace (done_f ++ Np.mean _ :: rest_f)
      with ((done_f ++ [Np.mean (band_mean rank cfg contrast epochs (fmin, fmax))])
            ++ rest_f) by (by rewrite <- app_assoc).
    replace (done_sd ++ np_std _ :: rest_sd)
      with ((done_sd ++ [np_std (band_mean rank cfg contrast epochs (fmin, fmax))])
            ++ rest_sd) by (by rewrite <- app_assoc).
    replace (done_rows ++ _ :: rest_rows)
      with ((done_rows ++ [band_row rank cfg tf contrast epochs (fmin, fmax)])
            ++ rest_rows) by (by rewrite <- app_assoc).
    replace (S (length done_f))
      with (length (done_f
                    ++ [Np.mean (band_mean rank cfg contrast epochs (fmin, fmax))]))
      by (rewrite length_app; simpl; lia).
    rewrite IH; try done; try lia; try (rewrite !length_app; simpl; lia).
    rewrite length_app. cbn [length]. rewrite Nat.add_1_r.
    cbn [flat_map fmap list_fmap foldl]. unfold band_msgs at 2, band_ops at 2.
    f_equal; by rewrite <- ?app_assoc.
Qed.

(** *** The whole function *)

Fixpoint count_fits (ops : list op) : nat :=
  match ops with
  | [] => 0
  | OpPcaFitTransform _ :: ops' => S (count_fits ops')
  | _ :: ops' => count_fits ops'
  end.

Definition is_decimate (o : op) : bool :=
  match o with OpDecimate _ => true | _ => false end.

Definition effective_rank (rank0 : nat) : nat :=
  if decide (100 < rank0)%nat then 100%nat else rank0.

Lemma length_freq_ranges (tf : Tf) : length (freq_ranges tf) = n_freq_windows tf.
Proof.
  unfold freq_ranges, n_freq_windows. rewrite length_zip_with.
  destruct (freqs tf); cbn [tail length]; lia.
Qed.

Lemma length_time_ranges (tf : Tf) : length (time_ranges tf) = n_time_windows tf.
Proof.
  unfold time_ranges, n_time_windows. rewrite length_zip_with.
  destruct (times tf); cbn [tail length]; lia.
Qed.

Lemma count_fits_app (a b : list op) :
  count_fits (a ++ b) = (count_fits a + count_fits b)%nat.
Proof. induction a as [|[] a IH]; simpl; lia. Qed.

Lemma count_fits_windows (freq : nat) (ts : list nat) :
  count_fits (flat_map (window_ops freq) ts) = 0%nat.
Proof. induction ts as [|t ts IH]; [done|]. simpl. exact IH. Qed.

Lemma count_fits_bands (nt : nat) (fs : list nat) :
  count_fits (flat_map (band_ops nt) fs) = length fs.
Proof.
  induction fs as [|f fs IH]; [done|].
  cbn [flat_map]. rewrite count_fits_app, IH. unfold band_ops.
  rewrite count_fits_app, count_fits_windows. simpl. lia.
Qed.

Lemma no_decimate_bands (nt : nat) (fs : list nat) :
  Forall (λ o, is_decimate o = false) (flat_map (band_ops nt) fs).
Proof.
  induction fs as [|f fs IH]; [constructor|].
  cbn [flat_map]. apply Forall_app. split; [|done].
  unfold band_ops. apply Forall_app. split; [by repeat constructor|].
  generalize (seq 0 nt). intros ts. induction ts as [|t ts IHt]; [constructor|].
  cbn [flat_map]. apply Forall_app. split; [by repeat constructor|done].
Qed.

(** When the checks before the loops pass, the function returns; its
    arrays, log and operations are those of the bands in turn. *)
Lemma one_subject_decoding_eq (cfg : Config) (tf : Tf) (epochs : Epochs Signal)
    (contrast : ContrastT) (fmax : Q) (u : unit) (rank0 : nat) :
  check_csp_times tf epochs = Returned u →
  last (freqs tf) = Some fmax →
  ¬ (fmax == 0)%Q →
  smallest_rank (compute_rank (decimation_step cfg fmax epochs).1.1) = Returned rank0 →
  let ep := (decimation_step cfg fmax epochs).1.1 in
  let rank := effective_rank rank0 in
  one_subject_decoding cfg tf epochs contrast
  = (Returned
       (MkArtifact
          ((λ band, Np.mean (band_mean rank cfg contrast ep band)) <$> freq_ranges tf)
          ((λ band, np_std (band_mean rank cfg contrast ep band)) <$> freq_ranges tf)
          (band_row rank cfg tf contrast ep <$> freq_ranges tf)),
     ([Log Info MsgRunningDecoding] ++ (decimation_step cfg fmax epochs).1.2
      ++ (if decide (100 < rank0)%nat then [Log Info MsgReducingTo100] else [])
      ++ [Log Info (MsgNewRank rank)])
     ++ flat_map (band_msgs cfg tf contrast ep) (freq_ranges tf)
     ++ (if Np.any_nan (concat (band_row rank cfg tf contrast ep <$> freq_ranges tf))
         then [Log Info MsgNaNInBins] else []),
     (decimation_step cfg fmax epochs).2
     ++ flat_map (band_ops (n_time_windows tf)) (seq 0 (n_freq_windows tf))).
Proof.
  intros Hcheck Hlast Hfmax Hrank ep rank. unfold one_subject_decoding.
  rewrite Hcheck, Hlast.
  assert (Hq : Qeq_bool (3 * fmax) 0 = false).
  { apply not_true_is_false. intros Heq. apply Qeq_bool_iff in Heq.
    apply Hfmax. lra. }
  rewrite Hq. subst ep.
  destruct (decimation_step cfg fmax epochs) as [[ep lg0] ops0] eqn:Hdec.
  cbn [fst snd] in *. rewrite Hrank.
  pose proof (freq_loop cfg tf rank ep contrast (freq_ranges tf) None
                [] (replicate (n_freq_windows tf) (Np.Fin 0))
                [] (replicate (n_freq_windows tf) (Np.Fin 0))
                [] (replicate (n_freq_windows tf)
                      (replicate (n_time_windows tf) (Np.Fin 0)))
                ([Log Info MsgRunningDecoding] ++ lg0
                 ++ (if decide (100 < rank0)%nat
                     then [Log Info MsgReducingTo100] else [])
                 ++ [Log Info (MsgNewRank rank)])
                ops0) as Hloop.
  cbn [app length] in Hloop. cbn [app].
  unfold rank, effective_rank in *.
  destruct (decide (100 < rank0)%nat).
  - rewrite Hloop.
    + cbn [raised st_freq_scores st_freq_scores_std st_tf_scores st_log st_ops].
      rewrite length_freq_ranges, length_time_ranges.
      do 2 f_equal. rewrite <- app_comm_cons. f_equal. by rewrite <- !app_assoc.
    + by rewrite length_replicate, length_freq_ranges.
    + by rewrite length_replicate, length_freq_ranges.
    + by rewrite length_replicate, length_freq_ranges.
    + apply Forall_replicate. by rewrite length_replicate, length_time_ranges.
    + done.
    + done.
  - rewrite Hloop.
    + cbn [raised st_freq_scores st_freq_scores_std st_tf_scores st_log st_ops].
      rewrite length_freq_ranges, length_time_ranges.
      do 2 f_equal. rewrite <- app_comm_cons. f_equal. by rewrite <- !app_assoc.
    + by rewrite length_replicate, length_freq_ranges.
    + by rewrite length_replicate, length_freq_ranges.
    + by rewrite length_replicate, length_freq_ranges.
    + apply Forall_replicate. by rewrite length_replicate, length_time_ranges.
    + done.
    + done.
Qed.

(** C2 (as the code has it).  The PCA basis is fitted once in every
    frequency window, on the full, un-cropped data of that window's band;
    the function performs as many fits as there are frequency windows.  In
    every time window of the band that basis is applied, never refitted: the
    score of the cell is the mean cross-validation score of the cropped data
    transformed with the band's basis. *)
Theorem pca_fitted_once_per_band (cfg : Config) (tf : Tf) (epochs : Epochs Signal)
    (contrast : ContrastT) (fmax : Q) (u : unit) (rank0 : nat) :
  check_csp_times tf epochs = Returned u →
  last (freqs tf) = Some fmax →
  ¬ (fmax == 0)%Q →
  smallest_rank (compute_rank (decimation_step cfg fmax epochs).1.1) = Returned rank0 →
  let ep := (decimation_step cfg fmax epochs).1.1 in
  let rank := effective_rank rank0 in
  ∃ art lg,
    one_subject_decoding cfg tf epochs contrast
    = (Returned art, lg,
       (decimation_step cfg fmax epochs).2
       ++ flat_map (band_ops (n_time_windows tf)) (seq 0 (n_freq_windows tf)))
    ∧ count_fits (one_subject_decoding cfg tf epochs contrast).2 = n_freq_windows tf
    ∧ ∀ f band t w,
        freq_ranges tf !! f = Some band → time_ranges tf !! t = Some w →
        ∃ row,
          tf_scores art !! f = Some row
          ∧ row !! t
            = Some (Np.mean
                      (cross_val_score
                         (pca_apply
                            (pca_fit rank (get_data (band_epochs cfg contrast ep band)))
                            (get_data (map_signals (crop_signal w.1 w.2)
                                         (band_epochs cfg contrast ep band))))
                         (band_labels cfg contrast ep band))).
Proof.
  intros Hcheck Hlast Hfmax Hrank ep rank.
  pose proof (one_subject_decoding_eq cfg tf epochs contrast fmax u rank0
                Hcheck Hlast Hfmax Hrank) as Heq.
  cbn zeta in Heq. fold ep rank in Heq. rewrite Heq.
  eexists _, _. split; [done|]. split.
  - cbn [snd]. rewrite count_fits_app, count_fits_bands, length_seq.
    unfold decimation_step. destruct (_ && _); simpl; lia.
  - intros f band t w Hf Ht. cbn [tf_scores].
    exists (band_row rank cfg tf contrast ep band).
    split; [by rewrite list_lookup_fmap, Hf|].
    unfold band_row. by rewrite list_lookup_fmap, Ht.
Qed.

Lemma int_of_floor (x : Q) : (2 < x)%Q → int_of x = Qfloor x ∧ (2 <= Qfloor x)%Z.
Proof.
  intros Hx. split.
  - unfold int_of, Qfloor. destruct x as [n d]. simpl.
    apply Z.quot_div_nonneg; [|lia].
    unfold Qlt in Hx. simpl in Hx. lia.
  - apply Qlt_le_weak in Hx. by apply Qfloor_resp_le in Hx.
Qed.

Lemma Qlt_bool_iff (a b : Q) : Qlt_bool a b = true ↔ (a < b)%Q.
Proof.
  unfold Qlt_bool. rewrite negb_true_iff. split.
  - intros Hle. apply Qnot_le_lt. intros H. apply Qle_bool_iff in H. congruence.
  - intros Hlt. apply not_true_is_false. intros H. apply Qle_bool_iff in H.
    by apply Qlt_not_le in Hlt.
Qed.

(** What the rest of the function computes when it works on the epochs
    [ep]: with the smallest rank [compute_rank] finds in [ep], the saved
    scores are those of the bands of [ep]. *)
Definition scores_from (cfg : Config) (tf : Tf) (contrast : ContrastT)
    (ep : Epochs Signal) (result : outcome ScoreArtifact) : Prop :=
  ∀ rank0, smallest_rank (compute_rank ep) = Returned rank0 →
    ∃ art,
      result = Returned art
      ∧ freq_scores art
        = (λ band, Np.mean (band_mean (effective_rank rank0) cfg contrast ep band))
          <$> freq_ranges tf
      ∧ freq_scores_std art
        = (λ band, np_std (band_mean (effective_rank rank0) cfg contrast ep band))
          <$> freq_ranges tf
      ∧ tf_scores art
        = band_row (effective_rank rank0) cfg tf contrast ep <$> freq_ranges tf.

(** C3 (as the code has it).  Let [needed] be the double
    [sfreq / (3 * fmax)].  The epochs are decimated exactly when quick-mode
    is enabled and [needed] exceeds 2; the factor is the floor of [needed],
    hence at least 2.  The decimation is the first operation of the function
    and the only one of its kind, and every band is then computed from the
    decimated epochs, with the rank found in them; otherwise every band is
    computed from the epochs as they were read. *)
Theorem decimation_policy (cfg : Config) (tf : Tf) (epochs : Epochs Signal)
    (contrast : ContrastT) (fmax : Q) (u : unit) :
  check_csp_times tf epochs = Returned u →
  last (freqs tf) = Some fmax →
  ¬ (fmax == 0)%Q →
  let needed :=
    Np.float64 (Np.float64 (sfreq epochs) / Np.float64 (3 * Np.float64 fmax)) in
  let run := one_subject_decoding cfg tf epochs contrast in
  (csp_quick cfg = true ∧ (2 < needed)%Q →
     (2 <= Qfloor needed)%Z
     ∧ (∃ rest, run.2 = OpDecimate (Qfloor needed) :: rest
                ∧ Forall (λ o, is_decimate o = false) rest)
     ∧ Log Info (MsgDecimating (Qfloor needed)) ∈ run.1.2
     ∧ scores_from cfg tf contrast (decimate (Qfloor needed) epochs) run.1.1)
  ∧ (¬ (csp_quick cfg = true ∧ (2 < needed)%Q) →
     Forall (λ o, is_decimate o = false) run.2
     ∧ scores_from cfg tf contrast epochs run.1.1).
Proof.
  intros Hcheck Hlast Hfmax needed run.
  assert (Hn : decimation_needed (sfreq epochs) fmax = needed) by reflexivity.
  set (dec := decimation_step cfg fmax epochs).
  assert (Hq : Qeq_bool (3 * fmax) 0 = false).
  { apply not_true_is_false. intros Heq. apply Qeq_bool_iff in Heq.
    apply Hfmax. lra. }
  assert (Hrun : ∃ lg' rest,
            run.2 = dec.2 ++ rest
            ∧ run.1.2 = [Log Info MsgRunningDecoding] ++ dec.1.2 ++ lg'
            ∧ Forall (λ o, is_decimate o = false) rest).
  { destruct (smallest_rank (compute_rank dec.1.1)) as [rank0|e] eqn:Hrank.
    - subst run dec.
      rewrite (one_subject_decoding_eq cfg tf epochs contrast fmax u rank0
                 Hcheck Hlast Hfmax Hrank).
      eexists _, _. cbn [fst snd]. split; [done|].
      split; [by rewrite <- !app_assoc|]. apply no_decimate_bands.
    - subst run dec. unfold one_subject_decoding. rewrite Hcheck, Hlast, Hq.
      destruct (decimation_step cfg fmax epochs) as [[ep lg0] ops0].
      cbn [fst snd] in *. rewrite Hrank. cbn [fst snd].
      exists [], []. by rewrite !app_nil_r. }
  assert (Hscores : scores_from cfg tf contrast dec.1.1 run.1.1).
  { intros rank0 Hrank. subst run dec.
    rewrite (one_subject_decoding_eq cfg tf epochs contrast fmax u rank0
               Hcheck Hlast Hfmax Hrank).
    eexists. cbn [fst snd]. split; [done|]. done. }
  destruct Hrun as (lg' & rest & Hops & Hlog & Hrest).
  rewrite Hops, Hlog. clear Hops Hlog. subst dec. revert Hscores.
  unfold decimation_step. rewrite Hn. clearbody needed.
  split.
  - intros [Hquick Hneeded]. revert Hscores.
    rewrite Hquick, (proj2 (Qlt_bool_iff 2 needed) Hneeded).
    destruct (int_of_floor needed Hneeded) as [-> Hge].
    cbn. intros Hscores. split; [done|]. split; [by exists rest|].
    split; [|done]. apply list_elem_of_further, list_elem_of_here.
  - intros Hno. revert Hscores.
    destruct (Qlt_bool 2 needed && csp_quick cfg) eqn:Hb.
    + apply andb_true_iff in Hb as [Hb1 Hb2]. apply Qlt_bool_iff in Hb1.
      exfalso. by apply Hno.
    + done.
Qed.

(** *** Further properties of [prepare_epochs_and_y] *)

Definition in_contrast (contrast : ContrastT) (c : Z) : Prop :=
  c ∈ contrast.1 ∨ c ∈ contrast.2.

Lemma events_map_signals (f : Signal → Signal) (epochs : Epochs Signal) :
  events (map_signals f epochs) = events epochs.
Proof.
  unfold events, map_signals. cbn [trials]. rewrite <- list_fmap_compose.
  by apply list_fmap_ext.
Qed.

Lemma events_select_contrast (epochs : Epochs Signal) (contrast : ContrastT) :
  events (select_contrast epochs contrast)
  = filter (in_contrast contrast) (events epochs).
Proof.
  unfold events, select_contrast, in_contrast. cbn [trials].
  induction (trials epochs) as [|t ts IH]; [done|].
  rewrite fmap_cons.
  destruct (decide (code t ∈ contrast.1 ∨ code t ∈ contrast.2)) as [Hin|Hout].
  - rewrite !filter_cons_True by done. rewrite fmap_cons. by f_equal.
  - rewrite !filter_cons_False by done. done.
Qed.

Lemma events_band_epochs (cfg : Config) (contrast : ContrastT)
    (epochs : Epochs Signal) (band : Q * Q) :
  events (band_epochs cfg contrast epochs band)
  = filter (in_contrast contrast) (events epochs).
Proof.
  unfold band_epochs, prepare_epochs_and_y.
  destruct (Labels.prepare_labels _ _) as [y lg]. cbn [fst].
  rewrite events_map_signals, events_select_contrast.
  case_decide; by rewrite ?events_map_signals.
Qed.

(** X2.  After the restriction to the contrast no trial is left whose event
    code is in neither set: every entry [prepare_epochs_and_y] logs reports a
    code found in both sets. *)
Theorem prepare_epochs_and_y_logs_overlaps_only (epochs : Epochs Signal)
    (contrast : ContrastT) (cfg : Config) (fmin fmax : Q) :
  Forall (λ e, ∃ c, e = Log Critical (MsgBothSets c)
                    ∧ c ∈ contrast.1 ∧ c ∈ contrast.2)
         (prepare_epochs_and_y epochs contrast cfg fmin fmax).2.
Proof.
  pose proof (prepare_epochs_and_y_eq epochs contrast cfg (fmin, fmax)) as Heq.
  cbn [fst snd] in Heq. rewrite Heq. cbn [snd]. unfold band_log.
  rewrite events_band_epochs. apply Forall_forall. intros e He.
  apply list_elem_of_In, in_concat in He as (l & Hl & He).
  apply list_elem_of_In, list_elem_of_fmap in Hl as (c & -> & Hc).
  apply list_elem_of_filter in Hc as [Hc _]. unfold in_contrast in Hc.
  unfold Labels.complaint_in in He. apply list_elem_of_In in He.
  repeat case_decide; try (by apply elem_of_nil in He).
  - apply list_elem_of_singleton in He as ->. exists c. tauto.
  - tauto.
Qed.

(** X3.  When [prepare_epochs_and_y] returns, the epochs and the labels are
    aligned: there is one label per trial of the returned epochs, and these
    trials are the trials of the input whose event code belongs to the
    contrast, in their order. *)
Theorem prepare_epochs_and_y_aligned (epochs : Epochs Signal)
    (contrast : ContrastT) (cfg : Config) (fmin fmax : Q)
    (epochs_filter : Epochs Signal) (y : list Z) (lg : list log_entry) :
  prepare_epochs_and_y epochs contrast cfg fmin fmax = (epochs_filter, Returned y, lg) →
  length y = length (get_data epochs_filter)
  ∧ events epochs_filter = filter (in_contrast contrast) (events epochs).
Proof.
  pose proof (prepare_epochs_and_y_eq epochs contrast cfg (fmin, fmax)) as Heq.
  cbn [fst snd] in Heq. rewrite Heq. intros [= <- <- <-]. split.
  - unfold band_labels, get_data, events. by rewrite !length_fmap.
  - apply events_band_epochs.
Qed.

(** X4.  When the two conditions share no event code, the labels are binary
    and nothing is logged: a trial is labelled 0 when its code belongs to
    the first condition and 1 otherwise. *)
Theorem prepare_epochs_and_y_disjoint (epochs : Epochs Signal)
    (contrast : ContrastT) (cfg : Config) (fmin fmax : Q) :
  (∀ c, c ∈ contrast.1 → c ∉ contrast.2) →
  ∃ epochs_filter,
    prepare_epochs_and_y epochs contrast cfg fmin fmax
    = (epochs_filter,
       Returned ((λ c, if decide (c ∈ contrast.1) then 0 else 1)
                 <$> events epochs_filter),
       []).
Proof.
  intros Hdisj.
  pose proof (prepare_epochs_and_y_eq epochs contrast cfg (fmin, fmax)) as Heq.
  cbn [fst snd] in Heq. eexists. rewrite Heq. f_equal; [f_equal; f_equal|].
  - unfold band_labels. apply list_fmap_ext. intros i c Hc.
    apply list_elem_of_lookup_2 in Hc. rewrite events_band_epochs in Hc.
    apply list_elem_of_filter in Hc as [Hc _]. unfold in_contrast in Hc.
    unfold Labels.label_in. pose proof (Hdisj c).
    repeat case_decide; try done; tauto.
  - unfold band_log. apply Labels.concat_nil_iff, Forall_fmap, Forall_forall.
    intros c Hc. rewrite events_band_epochs in Hc.
    apply list_elem_of_filter in Hc as [Hc _]. unfold in_contrast in Hc.
    apply Labels.complaint_in_nil. pose proof (Hdisj c).
    destruct (decide (c ∈ contrast.1)); tauto.
Qed.

(** *** Further properties of [one_subject_decoding] *)

Lemma foldl_min_spec (l : list nat) :
  ∀ r0, (foldl Nat.min r0 l ≤ r0)%nat
        ∧ Forall (λ r, (foldl Nat.min r0 l ≤ r)%nat) l
        ∧ (foldl Nat.min r0 l = r0 ∨ foldl Nat.min r0 l ∈ l).
Proof.
  induction l as [|x l IH]; intros r0; simpl.
  - split; [done|]. split; [constructor|by left].
  - destruct (IH (Nat.min r0 x)) as (H1 & H2 & H3). split; [lia|]. split.
    + constructor; [lia|done].
    + destruct H3 as [H3|H3].
      * destruct (Nat.min_spec r0 x) as [[_ Hm]|[_ Hm]].
        -- left. congruence.
        -- right. rewrite H3, Hm. apply list_elem_of_here.
      * right. by apply list_elem_of_further.
Qed.

Lemma smallest_rank_spec (rank_dic : list (string * nat)) (r : nat) :
  smallest_rank rank_dic = Returned r →
  (∃ ch_type, (ch_type, r) ∈ rank_dic)
  ∧ ∀ ch_type r', (ch_type, r') ∈ rank_dic → (r ≤ r')%nat.
Proof.
  destruct rank_dic as [|[k0 r0] rest]; [done|]. simpl. intros [= <-].
  destruct (foldl_min_spec (snd <$> rest) r0) as (H1 & H2 & H3). split.
  - destruct H3 as [->|H3].
    + exists k0. apply list_elem_of_here.
    + apply list_elem_of_fmap in H3 as ([k r] & Hr & Hin). simpl in Hr.
      exists k. rewrite Hr. by apply list_elem_of_further.
  - intros k r' Hin. apply elem_of_cons in Hin as [[= -> ->]|Hin]; [done|].
    rewrite Forall_forall in H2. apply H2.
    apply list_elem_of_fmap. by exists (k, r').
Qed.

(** X5.  When [compute_rank] reports no channel type, the function raises
    the [ValueError] of [min] on an empty dictionary, after the decimation
    and before any fit or score. *)
Theorem one_subject_decoding_empty_rank (cfg : Config) (tf : Tf)
    (epochs : Epochs Signal) (contrast : ContrastT) (fmax : Q) (u : unit) :
  check_csp_times tf epochs = Returned u →
  last (freqs tf) = Some fmax →
  ¬ (fmax == 0)%Q →
  compute_rank (decimation_step cfg fmax epochs).1.1 = [] →
  one_subject_decoding cfg tf epochs contrast
  = (Raised ValueError,
     [Log Info MsgRunningDecoding] ++ (decimation_step cfg fmax epochs).1.2,
     (decimation_step cfg fmax epochs).2).
Proof.
  intros Hcheck Hlast Hfmax Hnil.
  assert (Hq : Qeq_bool (3 * fmax) 0 = false).
  { apply not_true_is_false. intros Heq. apply Qeq_bool_iff in Heq.
    apply Hfmax. lra. }
  unfold one_subject_decoding. rewrite Hcheck, Hlast, Hq.
  destruct (decimation_step cfg fmax epochs) as [[ep lg0] ops0].
  cbn [fst snd] in *. by rewrite Hnil.
Qed.

(** X6.  The arrays of a completed run have the shape of the grid:
    [n_freq_windows] frequency scores and standard deviations, and
    [n_freq_windows] rows of [n_time_windows] time-frequency scores. *)
Theorem one_subject_decoding_shapes (cfg : Config) (tf : Tf)
    (epochs : Epochs Signal) (contrast : ContrastT) (art : ScoreArtifact)
    (lg : list log_entry) (ops : list op) :
  one_subject_decoding cfg tf epochs contrast = (Returned art, lg, ops) →
  length (freq_scores art) = n_freq_windows tf
  ∧ length (freq_scores_std art) = n_freq_windows tf
  ∧ length (tf_scores art) = n_freq_windows tf
  ∧ Forall (λ row, length row = n_time_windows tf) (tf_scores art).
Proof.
  intros Hrun. unfold one_subject_decoding in Hrun.
  destruct (check_csp_times tf epochs) as [u|e] eqn:Hcheck; [|done].
  destruct (last (freqs tf)) as [fmax|] eqn:Hlast; [|done].
  destruct (Qeq_bool (3 * fmax) 0) eqn:Hq; [done|].
  assert (Hfmax : ¬ (fmax == 0)%Q).
  { intros H0. assert (Hz : (3 * fmax == 0)%Q) by (rewrite H0; reflexivity).
    apply Qeq_bool_iff in Hz. congruence. }
  destruct (smallest_rank (compute_rank (decimation_step cfg fmax epochs).1.1))
    as [rank0|e] eqn:Hrank.
  - pose proof (one_subject_decoding_eq cfg tf epochs contrast fmax u rank0
                  Hcheck Hlast Hfmax Hrank) as Heq.
    cbn zeta in Heq. unfold one_subject_decoding in Heq.
    rewrite Hcheck, Hlast, Hq in Heq. rewrite Heq in Hrun.
    injection Hrun as <- _ _. cbn [freq_scores freq_scores_std tf_scores].
    rewrite !length_fmap, length_freq_ranges. repeat split.
    apply Forall_fmap, Forall_forall. intros band _. simpl.
    unfold band_row. by rewrite length_fmap, length_time_ranges.
  - destruct (decimation_step cfg fmax epochs) as [[ep lg0] ops0].
    cbn [fst snd] in Hrank. by rewrite Hrank in Hrun.
Qed.

(** X7.  The rank the PCA is built with, which the function logs, is the
    smallest rank over the channel types capped at 100: it is at most 100
    and at most the rank of every channel type, and the cap is announced in
    the log when the smallest rank exceeds 100. *)
Theorem one_subject_decoding_rank (cfg : Config) (tf : Tf)
    (epochs : Epochs Signal) (contrast : ContrastT) (fmax : Q) (u : unit)
    (rank0 : nat) :
  check_csp_times tf epochs = Returned u →
  last (freqs tf) = Some fmax →
  ¬ (fmax == 0)%Q →
  smallest_rank (compute_rank (decimation_step cfg fmax epochs).1.1) = Returned rank0 →
  let rank_dic := compute_rank (decimation_step cfg fmax epochs).1.1 in
  let lg := (one_subject_decoding cfg tf epochs contrast).1.2 in
  Log Info (MsgNewRank (Nat.min rank0 100)) ∈ lg
  ∧ (∀ ch_type r, (ch_type, r) ∈ rank_dic → (Nat.min rank0 100 ≤ r)%nat)
  ∧ (∃ ch_type, (ch_type, rank0) ∈ rank_dic)
  ∧ ((100 < rank0)%nat → Log Info MsgReducingTo100 ∈ lg).
Proof.
  intros Hcheck Hlast Hfmax Hrank rank_dic lg. subst lg.
  rewrite (one_subject_decoding_eq cfg tf epochs contrast fmax u rank0
             Hcheck Hlast Hfmax Hrank). cbn [fst snd].
  destruct (smallest_rank_spec _ _ Hrank) as [Hin Hle].
  assert (Hr : effective_rank rank0 = Nat.min rank0 100).
  { unfold effective_rank. case_decide; lia. }
  rewrite Hr. split; [|split; [|split]].
  - rewrite !elem_of_app. left. right. right. right. apply list_elem_of_here.
  - intros k r Hk. specialize (Hle k r Hk). lia.
  - done.
  - intros Hbig. rewrite decide_True by done.
    rewrite !elem_of_app. left. right. right. left. apply list_elem_of_here.
Qed.

Fixpoint count_cross_val (ops : list op) : nat :=
  match ops with
  | [] => 0
  | OpCrossValScore _ _ :: ops' => S (count_cross_val ops')
  | _ :: ops' => count_cross_val ops'
  end.

Lemma count_cross_val_app (a b : list op) :
  count_cross_val (a ++ b) = (count_cross_val a + count_cross_val b)%nat.
Proof. induction a as [|[] a IH]; simpl; lia. Qed.

Lemma count_cross_val_windows (freq : nat) (ts : list nat) :
  count_cross_val (flat_map (window_ops freq) ts) = length ts.
Proof. induction ts as [|t ts IH]; [done|]. simpl. by rewrite IH. Qed.

Lemma count_cross_val_bands (nt : nat) (fs : list nat) :
  count_cross_val (flat_map (band_ops nt) fs) = (length fs * (1 + nt))%nat.
Proof.
  induction fs as [|f fs IH]; [done|].
  cbn [flat_map]. rewrite count_cross_val_app, IH. unfold band_ops.
  rewrite count_cross_val_app, count_cross_val_windows, length_seq. simpl. lia.
Qed.

(** X8.  A completed run cross-validates the classifier once per frequency
    window on the full epochs and once per cell of the grid:
    [n_freq_windows * (1 + n_time_windows)] times in all. *)
Theorem one_subject_decoding_cross_val_count (cfg : Config) (tf : Tf)
    (epochs : Epochs Signal) (contrast : ContrastT) (fmax : Q) (u : unit)
    (rank0 : nat) :
  check_csp_times tf epochs = Returned u →
  last (freqs tf) = Some fmax →
  ¬ (fmax == 0)%Q →
  smallest_rank (compute_rank (decimation_step cfg fmax epochs).1.1) = Returned rank0 →
  count_cross_val (one_subject_decoding cfg tf epochs contrast).2
  = (n_freq_windows tf * (1 + n_time_windows tf))%nat.
Proof.
  intros Hcheck Hlast Hfmax Hrank.
  rewrite (one_subject_decoding_eq cfg tf epochs contrast fmax u rank0
             Hcheck Hlast Hfmax Hrank). cbn [snd].
  rewrite count_cross_val_app, count_cross_val_bands, length_seq.
  unfold decimation_step. destruct (_ && _); simpl; lia.
Qed.

End Decoding.

(** *** A concrete instance for the examples

    The examples need some signals and routines in place of MNE's and
    scikit-learn's: a signal is a list of samples, and the stand-ins leave
    the signals unchanged, report a rank of 102 for magnetometers, take the
    number of trials as the fitted basis and score every fold at chance. *)

Definition demo_signal : Type := list Q.

Definition demo_one_subject_decoding (cfg : Config) (tf : Tf)
    (epochs : Epochs demo_signal) (contrast : ContrastT)
    : outcome ScoreArtifact * list log_entry * list op :=
  one_subject_decoding demo_signal id id (λ _ _, id) (λ _, id) (λ _ _, id)
    (λ _, [("mag"%string, 102%nat)]) nat (λ _ X, length X) (λ _ X, X)
    (λ _ _, [Np.Fin (1 # 2)]) (λ _, Np.Fin 0) (λ _ _, Returned tt)
    cfg tf epochs contrast.

(** Four trials sampled at 250 Hz, two of each condition. *)
Definition demo_epochs : Epochs demo_signal :=
  MkEpochs 250 [Trial 1 [1; 2]%Q; Trial 2 [2; 1]%Q; Trial 1 [1; 3]%Q; Trial 2 [3; 1]%Q].

Definition demo_contrast : ContrastT := ([1], [2]).

Definition demo_cfg_quick : Config :=
  MkConfig "meg" true 3 1024 (Some 42) (5 # 100) (5 # 100).

(** Frequencies of interest up to 40 Hz: 250 / (3 * 40) lies between 2
    and 3. *)
Definition demo_tf_40 : Tf := MkTf [8; 20; 40]%Q [0; 1 # 2; 1]%Q.

Lemma pca_fitted_once_per_band_witness :
  ∃ art lg,
    demo_one_subject_decoding demo_cfg_quick demo_tf_40 demo_epochs demo_contrast
    = (Returned art, lg,
       [OpDecimate 2]
       ++ flat_map (band_ops (n_time_windows demo_tf_40))
                   (seq 0 (n_freq_windows demo_tf_40)))
    ∧ count_fits (demo_one_subject_decoding demo_cfg_quick demo_tf_40 demo_epochs
                    demo_contrast).2
      = n_freq_windows demo_tf_40
    ∧ ∀ f band t w,
        freq_ranges demo_tf_40 !! f = Some band →
        time_ranges demo_tf_40 !! t = Some w →
        ∃ row, tf_scores art !! f = Some row ∧ row !! t = Some (Np.Fin ((1 # 2) / 1)).
Proof.
  apply (pca_fitted_once_per_band demo_signal id id (λ _ _, id) (λ _, id) (λ _ _, id)
           (λ _, [("mag"%string, 102%nat)]) nat (λ _ X, length X) (λ _ X, X)
           (λ _ _, [Np.Fin (1 # 2)]) (λ _, Np.Fin 0) (λ _ _, Returned tt)
           demo_cfg_quick demo_tf_40 demo_epochs demo_contrast 40 tt 102%nat).
  - reflexivity.
  - reflexivity.
  - discriminate.
  - reflexivity.
Defined.

(** With two frequency windows and two time windows the basis is fitted
    twice, once at the start of each frequency window. *)
Lemma pca_fitted_twice_for_two_bands :
  (demo_one_subject_decoding demo_cfg_quick demo_tf_40 demo_epochs demo_contrast).2
  = [OpDecimate 2;
     OpPcaFitTransform 0; OpCrossValScore 0 None;
     OpPcaTransform 0 0; OpCrossValScore 0 (Some 0%nat); OpCspFit 0 0;
     OpPcaTransform 0 1; OpCrossValScore 0 (Some 1%nat); OpCspFit 0 1;
     OpPcaFitTransform 1; OpCrossValScore 1 None;
     OpPcaTransform 1 0; OpCrossValScore 1 (Some 0%nat); OpCspFit 1 0;
     OpPcaTransform 1 1; OpCrossValScore 1 (Some 1%nat); OpCspFit 1 1]
  ∧ count_fits (demo_one_subject_decoding demo_cfg_quick demo_tf_40 demo_epochs
                  demo_contrast).2 = 2%nat.
Proof. split; vm_compute; reflexivity. Qed.

(** The double [250 / (3 * 40)]. *)
Definition demo_needed : Q :=
  Np.float64 (Np.float64 (sfreq demo_epochs) / Np.float64 (3 * Np.float64 40)).

Lemma decimation_policy_witness :
  (csp_quick demo_cfg_quick = true ∧ (2 < demo_needed)%Q)
  ∧ (2 <= Qfloor demo_needed)%Z
  ∧ (∃ rest,
       (demo_one_subject_decoding demo_cfg_quick demo_tf_40 demo_epochs demo_contrast).2
       = OpDecimate (Qfloor demo_needed) :: rest
       ∧ Forall (λ o, is_decimate o = false) rest)
  ∧ Log Info (MsgDecimating (Qfloor demo_needed))
    ∈ (demo_one_subject_decoding demo_cfg_quick demo_tf_40 demo_epochs demo_contrast).1.2
  ∧ scores_from demo_signal id id (λ _ _, id) (λ _ _, id)
      (λ _, [("mag"%string, 102%nat)]) nat (λ _ X, length X) (λ _ X, X)
      (λ _ _, [Np.Fin (1 # 2)]) (λ _, Np.Fin 0)
      demo_cfg_quick demo_tf_40 demo_contrast
      (decimate demo_signal (λ _, id) (Qfloor demo_needed) demo_epochs)
      (demo_one_subject_decoding demo_cfg_quick demo_tf_40 demo_epochs demo_contrast).1.1.
Proof.
  assert (Hq : csp_quick demo_cfg_quick = true ∧ (2 < demo_needed)%Q)
    by (split; vm_compute; reflexivity).
  split; [exact Hq|].
  apply (decimation_policy demo_signal id id (λ _ _, id) (λ _, id) (λ _ _, id)
           (λ _, [("mag"%string, 102%nat)]) nat (λ _ X, length X) (λ _ X, X)
           (λ _ _, [Np.Fin (1 # 2)]) (λ _, Np.Fin 0) (λ _ _, Returned tt)
           demo_cfg_quick demo_tf_40 demo_epochs demo_contrast 40 tt).
  - reflexivity.
  - reflexivity.
  - discriminate.
  - exact Hq.
Defined.

(** At 250 Hz with frequencies up to 40 Hz the factor is
    [floor(250 / 120) = 2], which is not greater than 2; in quick mode the
    epochs are decimated by 2 all the same, the ratio 250 / 120 being
    greater than 2. *)
Lemma decimation_applied_with_factor_two :
  Qfloor (250 / (3 * 40)) = 2
  ∧ Qfloor (decimation_needed (sfreq demo_epochs) 40) = 2
  ∧ (2 <? Qfloor (decimation_needed (sfreq demo_epochs) 40)) = false
  ∧ csp_quick demo_cfg_quick = true
  ∧ head (demo_one_subject_decoding demo_cfg_quick demo_tf_40 demo_epochs
            demo_contrast).2
    = Some (OpDecimate 2).
Proof. repeat split; vm_compute; reflexivity. Qed.

(** The rounding shows.  At 480 Hz with frequencies up to 6.4 Hz the exact
    ratio is 25 and the double is 24.999999999999996: the factor is 24.
    At 250 Hz with frequencies up to 41.666666666666664 Hz the exact ratio
    exceeds 2 and the double is 2: the epochs are not decimated. *)
Lemma decimation_needed_is_rounded :
  (480 / (3 * (64 # 10)) == 25)%Q
  ∧ int_of (decimation_needed 480 (64 # 10)) = 24
  ∧ (2 < 250 / (3 * (41666666666666664 # 1000000000000000)))%Q
  ∧ (decimation_needed 250 (41666666666666664 # 1000000000000000) == 2)%Q.
Proof. repeat split; vm_compute; reflexivity. Qed.

(** *** Instances of the further properties *)

Lemma prepare_epochs_and_y_disjoint_witness :
  ∃ epochs_filter,
    prepare_epochs_and_y demo_signal id id (λ _ _, id) demo_epochs demo_contrast
      demo_cfg_quick 8 20
    = (epochs_filter,
       Returned ((λ c, if decide (c ∈ demo_contrast.1) then 0 else 1)
                 <$> events epochs_filter),
       []).
Proof.
  apply (prepare_epochs_and_y_disjoint demo_signal id id (λ _ _, id) (λ _, id)
           (λ _ _, id) (λ _, [("mag"%string, 102%nat)]) nat (λ _ X, length X)
           demo_epochs demo_contrast demo_cfg_quick 8 20).
  intros c Hc Hc'. apply list_elem_of_singleton in Hc, Hc'. congruence.
Defined.

Lemma prepare_epochs_and_y_aligned_witness :
  ∃ epochs_filter y lg,
    prepare_epochs_and_y demo_signal id id (λ _ _, id) demo_epochs demo_contrast
      demo_cfg_quick 8 20
    = (epochs_filter, Returned y, lg)
    ∧ length y = length (get_data demo_signal epochs_filter)
    ∧ events epochs_filter = filter (in_contrast demo_contrast) (events demo_epochs).
Proof.
  eexists _, _, _. split; [vm_compute; reflexivity|].
  eapply (prepare_epochs_and_y_aligned demo_signal id id (λ _ _, id)
            demo_epochs demo_contrast demo_cfg_quick 8 20).
  vm_compute. reflexivity.
Defined.

(** Epochs in which no channel type is found. *)
Lemma one_subject_decoding_empty_rank_witness :
  one_subject_decoding demo_signal id id (λ _ _, id) (λ _, id) (λ _ _, id)
    (λ _, []) nat (λ _ X, length X) (λ _ X, X)
    (λ _ _, [Np.Fin (1 # 2)]) (λ _, Np.Fin 0) (λ _ _, Returned tt)
    demo_cfg_quick demo_tf_40 demo_epochs demo_contrast
  = (Raised ValueError,
     [Log Info MsgRunningDecoding; Log Info (MsgDecimating 2)],
     [OpDecimate 2]).
Proof.
  apply (one_subject_decoding_empty_rank demo_signal id id (λ _ _, id) (λ _, id)
           (λ _ _, id) (λ _, []) nat (λ _ X, length X) (λ _ X, X)
           (λ _ _, [Np.Fin (1 # 2)]) (λ _, Np.Fin 0) (λ _ _, Returned tt)
           demo_cfg_quick demo_tf_40 demo_epochs demo_contrast 40 tt).
  - reflexivity.
  - reflexivity.
  - discriminate.
  - reflexivity.
Defined.

Lemma one_subject_decoding_shapes_witness :
  ∃ art lg ops,
    demo_one_subject_decoding demo_cfg_quick demo_tf_40 demo_epochs demo_contrast
    = (Returned art, lg, ops)
    ∧ length (freq_scores art) = n_freq_windows demo_tf_40
    ∧ length (freq_scores_std art) = n_freq_windows demo_tf_40
    ∧ length (tf_scores art) = n_freq_windows demo_tf_40
    ∧ Forall (λ row, length row = n_time_windows demo_tf_40) (tf_scores art).
Proof.
  eexists _, _, _. split; [vm_compute; reflexivity|].
  eapply (one_subject_decoding_shapes demo_signal id id (λ _ _, id) (λ _, id) (λ _ _, id)
           (λ _, [("mag"%string, 102%nat)]) nat (λ _ X, length X) (λ _ X, X)
           (λ _ _, [Np.Fin (1 # 2)]) (λ _, Np.Fin 0) (λ _ _, Returned tt)
            demo_cfg_quick demo_tf_40 demo_epochs demo_contrast).
  vm_compute. reflexivity.
Defined.

Lemma one_subject_decoding_rank_witness :
  Log Info (MsgNewRank (Nat.min 102 100))
  ∈ (demo_one_subject_decoding demo_cfg_quick demo_tf_40 demo_epochs demo_contrast).1.2
  ∧ (∀ ch_type r, (ch_type, r) ∈ [("mag"%string, 102%nat)] →
       (Nat.min 102 100 ≤ r)%nat)
  ∧ (∃ ch_type, (ch_type, 102%nat) ∈ [("mag"%string, 102%nat)])
  ∧ ((100 < 102)%nat →
     Log Info MsgReducingTo100
     ∈ (demo_one_subject_decoding demo_cfg_quick demo_tf_40 demo_epochs
          demo_contrast).1.2).
Proof.
  apply (one_subject_decoding_rank demo_signal id id (λ _ _, id) (λ _, id) (λ _ _, id)
           (λ _, [("mag"%string, 102%nat)]) nat (λ _ X, length X) (λ _ X, X)
           (λ _ _, [Np.Fin (1 # 2)]) (λ _, Np.Fin 0) (λ _ _, Returned tt)
           demo_cfg_quick demo_tf_40 demo_epochs demo_contrast 40 tt 102%nat).
  - reflexivity.
  - reflexivity.
  - discriminate.
  - reflexivity.
Defined.

Lemma one_subject_decoding_cross_val_count_witness :
  count_cross_val
    (demo_one_subject_decoding demo_cfg_quick demo_tf_40 demo_epochs demo_contrast).2
  = (n_freq_windows demo_tf_40 * (1 + n_time_windows demo_tf_40))%nat.
Proof.
  apply (one_subject_decoding_cross_val_count demo_signal id id (λ _ _, id) (λ _, id) (λ _ _, id)
           (λ _, [("mag"%string, 102%nat)]) nat (λ _ X, length X) (λ _ X, X)
           (λ _ _, [Np.Fin (1 # 2)]) (λ _, Np.Fin 0) (λ _ _, Returned tt)
           demo_cfg_quick demo_tf_40 demo_epochs demo_contrast 40 tt 102%nat).
  - reflexivity.
  - reflexivity.
  - discriminate.
  - reflexivity.
Defined.

End Decoding.

(** ** Loading and stacking the persisted scores: [load_and_average] *)

Module Loading.

(** A NumPy array: its shape and its entries in row-major order. *)
Record ndarray : Type := MkArray { shape : list nat; data : list Np.fl }.

Definition size_of (shape : list nat) : nat := foldr Nat.mul 1%nat shape.

(** [arr = np.empty(shape); arr.fill(np.NaN)] *)
Definition full_nan (shape : list nat) : ndarray :=
  MkArray shape (replicate (size_of shape) Np.NaN).

(** What [np.load(path(sub, ses, contrast))] does: it returns the array
    stored at the path, or raises ([FileNotFoundError] when there is no
    file). *)
Inductive load_result : Type :=
| Loaded (arr : ndarray)
| LoadRaised (e : exn).

Definition Store : Type := string → SessionT → load_result.

(** [itertools.product(subjects, sessions)] *)
Definition product (subjects : list string) (sessions : list SessionT)
    : list (string * SessionT) :=
  sub ← subjects; (λ ses, (sub, ses)) <$> sessions.

(** The [try] block and its [except FileNotFoundError] handler: the array
    kept for the slot, or an exception that is not handled, with the
    warnings logged on the way. *)
Definition load_or_nan (path : Store) (shape_ : list nat) (sub : string)
    (ses : SessionT) : outcome ndarray * list log_entry :=
  let attempt : outcome ndarray * list log_entry :=
    match path sub ses with
    | Loaded arr =>
        if decide (shape arr ≠ shape_)
        then (Raised FileNotFoundError, [Log Warning (MsgShapeMismatch sub ses)])
        else (Returned arr, [])
    | LoadRaised e => (Raised e, [])
    end in
  match attempt with
  | (Raised FileNotFoundError, lg) => (Returned (full_nan shape_), lg)
  | other => other
  end.

(** One iteration of [for i, (sub, ses) in enumerate(iterator)]. *)
Definition load_step (path : Store) (shape_ : list nat)
    (st : outcome (list (list Np.fl)) * list log_entry)
    (item : nat * (string * SessionT))
    : outcome (list (list Np.fl)) * list log_entry :=
  match st with
  | (Raised e, lg) => (Raised e, lg)
  | (Returned res, lg) =>
      let '(i, (sub, ses)) := item in
      match load_or_nan path shape_ sub ses with
      | (Raised e, lg1) => (Raised e, lg ++ lg1)
      | (Returned arr, lg1) =>
          let lg2 := if Np.any_nan (data arr)
                     then [Log Warning (MsgNaNFound sub ses)] else [] in
          (Returned (<[i := data arr]> res), lg ++ lg1 ++ lg2)
      end
  end.

(** [np.nanmean(res, axis=0)] on a stack of arrays of [size] entries. *)
Definition nanmean_axis0 (size : nat) (res : list (list Np.fl)) : list Np.fl :=
  (λ j, Np.nanmean (Np.column res j)) <$> seq 0 size.

Inductive loaded : Type :=
| Averaged (a : list Np.fl)
| Stacked (res : list (list Np.fl)).

Definition load_and_average (path : Store) (subjects : list string)
    (sessions : list SessionT) (shape_ : list nat) (average : bool)
    : outcome loaded * list log_entry :=
  let len_session := length sessions in
  let n := (length subjects * len_session)%nat in
  let res := replicate n (replicate (size_of shape_) (Np.Fin 0)) in
  let iterator := product subjects sessions in
  match foldl (load_step path shape_) (Returned res, [])
              (zip (seq 0 (length iterator)) iterator) with
  | (Raised e, lg) => (Raised e, lg)
  | (Returned res, lg) =>
      if average
      then (Returned (Averaged (nanmean_axis0 (size_of shape_) res)), lg)
      else (Returned (Stacked res), lg)
  end.

(** *** Properties of the reductions used here *)

Lemma Qsum_app (a b : list Q) : (Np.Qsum (a ++ b) == Np.Qsum a + Np.Qsum b)%Q.
Proof.
  induction a as [|x a IH]; simpl.
  - lra.
  - unfold Np.Qsum in *. simpl. rewrite IH. lra.
Qed.

Lemma count_not_nan_app (a b : list Np.fl) :
  Np.count_not_nan (a ++ b) = (Np.count_not_nan a + Np.count_not_nan b)%nat.
Proof. unfold Np.count_not_nan. by rewrite filter_app, length_app. Qed.

(** A NaN entry does not change [nanmean]. *)
Lemma nanmean_skip_nan (l1 l2 : list Np.fl) :
  Np.fl_eq (Np.nanmean (l1 ++ Np.NaN :: l2)) (Np.nanmean (l1 ++ l2)).
Proof.
  unfold Np.nanmean.
  assert (Hc : Np.count_not_nan (l1 ++ Np.NaN :: l2) = Np.count_not_nan (l1 ++ l2)).
  { rewrite !count_not_nan_app. done. }
  rewrite Hc. case_decide; simpl; [done|].
  rewrite !fmap_app, !Qsum_app, fmap_cons. unfold Np.Qsum at 2. simpl.
  fold (Np.Qsum (Np.nan_to_zero <$> l2)).
  assert (H0 : (0 + Np.Qsum (Np.nan_to_zero <$> l2) == Np.Qsum (Np.nan_to_zero <$> l2))%Q)
    by lra.
  by rewrite H0.
Qed.

Lemma column_app (a b : list (list Np.fl)) (j : nat) :
  Np.column (a ++ b) j = Np.column a j ++ Np.column b j.
Proof. unfold Np.column. by rewrite fmap_app. Qed.

Lemma nth_replicate_nan (n j : nat) : nth j (replicate n Np.NaN) Np.NaN = Np.NaN.
Proof.
  revert j. induction n as [|n IH]; intros [|j]; simpl; auto.
Qed.

(** Removing an all-NaN slot from a stack does not change the NaN-aware
    mean along the stacking axis. *)
Lemma nanmean_axis0_skip_slot (size : nat) (a b : list (list Np.fl)) :
  Forall2 Np.fl_eq (nanmean_axis0 size (a ++ replicate size Np.NaN :: b))
                   (nanmean_axis0 size (a ++ b)).
Proof.
  unfold nanmean_axis0. apply Forall2_fmap, Forall_Forall2_diag, Forall_forall.
  intros j _. rewrite !column_app. unfold Np.column at 2. rewrite fmap_cons.
  rewrite nth_replicate_nan. apply nanmean_skip_nan.
Qed.

(** *** The loading loop *)

(** The entries and the warnings of one slot, when nothing is raised. *)
Definition slot_data (path : Store) (shape_ : list nat) (item : string * SessionT)
    : list Np.fl :=
  match (load_or_nan path shape_ item.1 item.2).1 with
  | Returned arr => data arr
  | Raised _ => []
  end.

Definition slot_log (path : Store) (shape_ : list nat) (item : string * SessionT)
    : list log_entry :=
  (load_or_nan path shape_ item.1 item.2).2
  ++ if Np.any_nan (slot_data path shape_ item)
     then [Log Warning (MsgNaNFound item.1 item.2)] else [].

(** No file of the listed subjects and sessions fails to load for another
    reason than being absent. *)
Definition only_missing (path : Store) (items : list (string * SessionT)) : Prop :=
  ∀ sub ses e, (sub, ses) ∈ items → path sub ses = LoadRaised e →
               e = FileNotFoundError.

Lemma load_or_nan_returns (path : Store) (shape_ : list nat) (sub : string)
    (ses : SessionT) :
  (∀ e, path sub ses = LoadRaised e → e = FileNotFoundError) →
  ∃ arr lg, load_or_nan path shape_ sub ses = (Returned arr, lg).
Proof.
  intros Hm. unfold load_or_nan. destruct (path sub ses) as [arr|e] eqn:Hp.
  - case_decide; eauto.
  - rewrite (Hm e eq_refl). eauto.
Qed.

Lemma load_loop (path : Store) (shape_ : list nat)
    (items : list (string * SessionT)) :
  only_missing path items →
  ∀ (done_ rest : list (list Np.fl)) (lg : list log_entry),
    length rest = length items →
    foldl (load_step path shape_) (Returned (done_ ++ rest), lg)
          (zip (seq (length done_) (length items)) items)
    = (Returned (done_ ++ (slot_data path shape_ <$> items)),
       lg ++ concat (slot_log path shape_ <$> items)).
Proof.
  induction items as [|[sub ses] items IH]; intros Hm done_ rest lg Hlen.
  - destruct rest; [|done]. simpl. by rewrite !app_nil_r.
  - destruct rest as [|x rest]; [done|]. simpl in Hlen.
    cbn [length seq zip zip_with foldl]. rewrite !fmap_cons. cbn [concat].
    destruct (load_or_nan_returns path shape_ sub ses) as (arr & lg1 & Harr).
    { intros e. apply (Hm sub ses e). apply list_elem_of_here. }
    assert (Hstep : load_step path shape_ (Returned (done_ ++ x :: rest), lg)
                      (length done_, (sub, ses))
                    = (Returned ((done_ ++ [slot_data path shape_ (sub, ses)]) ++ rest),
                       lg ++ slot_log path shape_ (sub, ses))).
    { unfold load_step, slot_log, slot_data. simpl. rewrite Harr. simpl.
      rewrite insert_app_r_alt by lia. rewrite Nat.sub_diag. simpl.
      by rewrite <- app_assoc. }
    rewrite Hstep.
    replace (S (length done_))
      with (length (done_ ++ [slot_data path shape_ (sub, ses)]))
      by (rewrite length_app; simpl; lia).
    rewrite IH.
    + by rewrite <- !app_assoc.
    + intros s' e' x' Hin. apply Hm. by apply list_elem_of_further.
    + lia.
Qed.

Lemma length_product (subjects : list string) (sessions : list SessionT) :
  length (product subjects sessions) = (length subjects * length sessions)%nat.
Proof.
  unfold product. induction subjects as [|s subjects IH]; simpl; [done|].
  rewrite length_app, length_fmap. unfold mbind in IH. rewrite IH. done.
Qed.

Lemma load_and_average_stack (path : Store) (subjects : list string)
    (sessions : list SessionT) (shape_ : list nat) (average : bool) :
  only_missing path (product subjects sessions) →
  load_and_average path subjects sessions shape_ average
  = (Returned (let res := slot_data path shape_ <$> product subjects sessions in
               if average then Averaged (nanmean_axis0 (size_of shape_) res)
               else Stacked res),
     concat (slot_log path shape_ <$> product subjects sessions)).
Proof.
  intros Hm. unfold load_and_average.
  pose proof (load_loop path shape_ (product subjects sessions) Hm []
                (replicate (length subjects * length sessions)
                   (replicate (size_of shape_) (Np.Fin 0))) []) as H.
  simpl in H. rewrite H.
  - by destruct average.
  - by rewrite length_replicate, length_product.
Qed.

Definition absent_or_mismatched (path : Store) (shape_ : list nat)
    (sub : string) (ses : SessionT) : Prop :=
  path sub ses = LoadRaised FileNotFoundError
  ∨ ∃ arr, path sub ses = Loaded arr ∧ shape arr ≠ shape_.

Lemma slot_data_substituted (path : Store) (shape_ : list nat) (sub : string)
    (ses : SessionT) :
  absent_or_mismatched path shape_ sub ses →
  slot_data path shape_ (sub, ses) = replicate (size_of shape_) Np.NaN.
Proof.
  unfold slot_data, load_or_nan. simpl. intros [Hp|(arr & Hp & Hs)]; rewrite Hp.
  - done.
  - by rewrite decide_True.
Qed.

Lemma any_nan_replicate (n : nat) :
  (0 < n)%nat → Np.any_nan (replicate n Np.NaN) = true.
Proof. destruct n; [lia|done]. Qed.

(** C6.  Stacking never fails on a score file that is absent or has another
    shape than expected (files that fail to load for other reasons aside):
    the slot of that subject and session is filled with NaN, of the expected
    shape, a warning about it is logged, and the NaN-aware mean over the
    stack is the NaN-aware mean over the stack without that slot.  The
    warning for an absent file is the one about NaN values, which needs the
    expected shape to have at least one entry. *)
Theorem load_and_average_substitutes_nan (path : Store) (subjects : list string)
    (sessions : list SessionT) (shape_ : list nat) (i : nat) (sub : string)
    (ses : SessionT) :
  only_missing path (product subjects sessions) →
  product subjects sessions !! i = Some (sub, ses) →
  absent_or_mismatched path shape_ sub ses →
  (0 < size_of shape_)%nat →
  ∃ res lg,
    load_and_average path subjects sessions shape_ false = (Returned (Stacked res), lg)
    ∧ load_and_average path subjects sessions shape_ true
      = (Returned (Averaged (nanmean_axis0 (size_of shape_) res)), lg)
    ∧ length res = (length subjects * length sessions)%nat
    ∧ res !! i = Some (replicate (size_of shape_) Np.NaN)
    ∧ Log Warning (MsgNaNFound sub ses) ∈ lg
    ∧ ((∃ arr, path sub ses = Loaded arr) →
       Log Warning (MsgShapeMismatch sub ses) ∈ lg)
    ∧ Forall2 Np.fl_eq (nanmean_axis0 (size_of shape_) res)
                       (nanmean_axis0 (size_of shape_) (delete i res)).
Proof.
  intros Hm Hi Hbad Hsize.
  pose proof (slot_data_substituted path shape_ sub ses Hbad) as Hslot.
  eexists _, _.
  split; [rewrite load_and_average_stack by done; reflexivity|].
  split; [by rewrite load_and_average_stack|].
  split; [by rewrite length_fmap, length_product|].
  split; [by rewrite list_lookup_fmap, Hi; simpl; rewrite Hslot|].
  assert (Hlog : ∀ e, e ∈ slot_log path shape_ (sub, ses) →
            e ∈ concat (slot_log path shape_ <$> product subjects sessions)).
  { intros e He. apply list_elem_of_In, in_concat.
    exists (slot_log path shape_ (sub, ses)). split; [|by apply list_elem_of_In].
    apply list_elem_of_In, list_elem_of_fmap. exists (sub, ses). split; [done|].
    by eapply list_elem_of_lookup_2. }
  split; [|split].
  - apply Hlog. unfold slot_log. rewrite Hslot, any_nan_replicate by done.
    apply elem_of_app. right. apply list_elem_of_here.
  - intros [arr Harr]. apply Hlog. unfold slot_log, load_or_nan. simpl.
    destruct Hbad as [Hp|(arr' & Hp & Hs)]; [congruence|].
    rewrite Hp, decide_True by done. simpl. apply list_elem_of_here.
  - destruct (list_elem_of_split_length _ _ _ Hi) as (l1 & l2 & Hsplit & Hlen).
    rewrite Hsplit, fmap_app, fmap_cons, Hslot.
    replace i with (length (slot_data path shape_ <$> l1))
      by (rewrite length_fmap; lia).
    rewrite delete_middle. apply nanmean_axis0_skip_slot.
Qed.

(** Three subjects, one session, two frequency windows; the file of the
    second subject is absent. *)
Definition demo_store : Store := λ sub ses,
  if decide (sub = "01"%string)
  then Loaded (MkArray [2%nat] [Np.Fin (6 # 10); Np.Fin (7 # 10)])
  else if decide (sub = "03"%string)
  then Loaded (MkArray [2%nat] [Np.Fin (8 # 10); Np.Fin (5 # 10)])
  else LoadRaised FileNotFoundError.

Lemma demo_store_only_missing (items : list (string * SessionT)) :
  only_missing demo_store items.
Proof.
  intros sub ses e _. unfold demo_store. repeat case_decide; congruence.
Qed.

Lemma load_and_average_substitutes_nan_witness :
  ∃ res lg,
    load_and_average demo_store ["01"; "02"; "03"]%string [None] [2%nat] false
    = (Returned (Stacked res), lg)
    ∧ load_and_average demo_store ["01"; "02"; "03"]%string [None] [2%nat] true
      = (Returned (Averaged (nanmean_axis0 (size_of [2%nat]) res)), lg)
    ∧ length res = (3 * 1)%nat
    ∧ res !! 1%nat = Some (replicate (size_of [2%nat]) Np.NaN)
    ∧ Log Warning (MsgNaNFound "02" None) ∈ lg
    ∧ ((∃ arr, demo_store "02" None = Loaded arr) →
       Log Warning (MsgShapeMismatch "02" None) ∈ lg)
    ∧ Forall2 Np.fl_eq (nanmean_axis0 (size_of [2%nat]) res)
                       (nanmean_axis0 (size_of [2%nat]) (delete 1%nat res)).
Proof.
  apply (load_and_average_substitutes_nan demo_store ["01"; "02"; "03"]%string
           [None] [2%nat] 1 "02"%string None).
  - apply demo_store_only_missing.
  - reflexivity.
  - left. reflexivity.
  - simpl. lia.
Defined.

(** *** Further properties of [load_and_average] *)

Lemma product_lookup (subjects : list string) (sessions : list SessionT)
    (a b : nat) (sub : string) (ses : SessionT) :
  subjects !! a = Some sub → sessions !! b = Some ses →
  product subjects sessions !! (a * length sessions + b)%nat = Some (sub, ses).
Proof.
  unfold product. revert a. induction subjects as [|s0 subjects IH]; intros a Ha Hb.
  - done.
  - rewrite bind_cons. destruct a as [|a]; simpl in Ha.
    + injection Ha as ->. simpl. rewrite lookup_app_l.
      * by rewrite list_lookup_fmap, Hb.
      * rewrite length_fmap. by apply lookup_lt_Some in Hb.
    + rewrite lookup_app_r by (rewrite length_fmap; simpl; lia).
      rewrite length_fmap.
      replace (S a * length sessions + b - length sessions)%nat
        with (a * length sessions + b)%nat by (simpl; lia).
      by apply IH.
Qed.

Lemma load_raised_stays (path : Store) (shape_ : list nat) (e : exn)
    (lg : list log_entry) (items : list (nat * (string * SessionT))) :
  foldl (load_step path shape_) (Raised e, lg) items = (Raised e, lg).
Proof. induction items as [|item items IH]; [done|]. simpl. exact IH. Qed.

Lemma load_loop_prefix (path : Store) (shape_ : list nat)
    (items : list (string * SessionT)) :
  only_missing path items →
  ∀ (done_ rest1 rest2 : list (list Np.fl)) (lg : list log_entry),
    length rest1 = length items →
    foldl (load_step path shape_) (Returned (done_ ++ rest1 ++ rest2), lg)
          (zip (seq (length done_) (length items)) items)
    = (Returned (done_ ++ (slot_data path shape_ <$> items) ++ rest2),
       lg ++ concat (slot_log path shape_ <$> items)).
Proof.
  induction items as [|[sub ses] items IH]; intros Hm done_ rest1 rest2 lg Hlen.
  - destruct rest1; [|done]. simpl. by rewrite !app_nil_r.
  - destruct rest1 as [|x rest1]; [done|]. simpl in Hlen.
    cbn [length seq zip zip_with foldl]. rewrite !fmap_cons. cbn [concat].
    destruct (load_or_nan_returns path shape_ sub ses) as (arr & lg1 & Harr).
    { intros e. apply (Hm sub ses e). apply list_elem_of_here. }
    assert (Hstep : load_step path shape_
                      (Returned (done_ ++ (x :: rest1) ++ rest2), lg)
                      (length done_, (sub, ses))
                    = (Returned ((done_ ++ [slot_data path shape_ (sub, ses)])
                                 ++ rest1 ++ rest2),
                       lg ++ slot_log path shape_ (sub, ses))).
    { unfold load_step, slot_log, slot_data. simpl. rewrite Harr. simpl.
      rewrite insert_app_r_alt by lia. rewrite Nat.sub_diag. simpl.
      by rewrite <- app_assoc. }
    rewrite Hstep.
    replace (S (length done_))
      with (length (done_ ++ [slot_data path shape_ (sub, ses)]))
      by (rewrite length_app; simpl; lia).
    rewrite IH.
    + by rewrite <- !app_assoc.
    + intros s' e' x' Hin. apply Hm. by apply list_elem_of_further.
    + lia.
Qed.

Lemma zip_seq_middle {A} (l1 l2 : list A) (x : A) :
  zip (seq 0 (length (l1 ++ x :: l2))) (l1 ++ x :: l2)
  = zip (seq 0 (length l1)) l1
    ++ (length l1, x) :: zip (seq (S (length l1)) (length l2)) l2.
Proof.
  rewrite length_app. cbn [length]. rewrite seq_app. cbn [seq Nat.add].
  rewrite zip_with_app by (by rewrite length_seq). done.
Qed.

(** X10.  Only an absent file is tolerated: when loading the file of some
    subject and session fails for another reason, [load_and_average] raises
    that exception, whatever [average] is. *)
Theorem load_and_average_propagates_error (path : Store) (subjects : list string)
    (sessions : list SessionT) (shape_ : list nat) (average : bool)
    (l1 l2 : list (string * SessionT)) (sub : string) (ses : SessionT) (e : exn) :
  product subjects sessions = l1 ++ (sub, ses) :: l2 →
  only_missing path l1 →
  path sub ses = LoadRaised e →
  e ≠ FileNotFoundError →
  ∃ lg, load_and_average path subjects sessions shape_ average = (Raised e, lg).
Proof.
  intros Hprod Hm Hp He. unfold load_and_average.
  rewrite <- length_product, Hprod, zip_seq_middle, foldl_app.
  rewrite length_app. cbn [length]. rewrite replicate_add.
  pose proof (load_loop_prefix path shape_ l1 Hm []
                (replicate (length l1) (replicate (size_of shape_) (Np.Fin 0)))
                (replicate (S (length l2)) (replicate (size_of shape_) (Np.Fin 0)))
                []) as Hpre.
  cbn [app length] in Hpre. rewrite Hpre by (by rewrite length_replicate).
  cbn [foldl]. unfold load_step at 2, load_or_nan. rewrite Hp.
  destruct e; try done; rewrite load_raised_stays; eauto.
Qed.

(** X11.  The stack follows the order of [itertools.product]: the scores of
    the [a]-th subject in its [b]-th session are in slot
    [a * len(sessions) + b], and a file that is present with the expected
    shape is stored there unchanged. *)
Theorem load_and_average_slot_order (path : Store) (subjects : list string)
    (sessions : list SessionT) (shape_ : list nat) (a b : nat) (sub : string)
    (ses : SessionT) (arr : ndarray) :
  only_missing path (product subjects sessions) →
  subjects !! a = Some sub →
  sessions !! b = Some ses →
  path sub ses = Loaded arr →
  shape arr = shape_ →
  ∃ res lg,
    load_and_average path subjects sessions shape_ false = (Returned (Stacked res), lg)
    ∧ res !! (a * length sessions + b)%nat = Some (data arr).
Proof.
  intros Hm Ha Hb Hp Hs.
  eexists _, _. split; [rewrite load_and_average_stack by done; reflexivity|].
  rewrite list_lookup_fmap, (product_lookup subjects sessions a b sub ses Ha Hb).
  simpl. unfold slot_data, load_or_nan. simpl. rewrite Hp.
  by rewrite decide_False by (by intros ?).
Qed.

Lemma slot_log_nil (path : Store) (shape_ : list nat) (sub : string)
    (ses : SessionT) :
  (∀ e, path sub ses = LoadRaised e → e = FileNotFoundError) →
  (0 < size_of shape_)%nat →
  slot_log path shape_ (sub, ses) = []
  ↔ ∃ arr, path sub ses = Loaded arr ∧ shape arr = shape_
           ∧ Np.any_nan (data arr) = false.
Proof.
  intros Hm Hsize. unfold slot_log, slot_data, load_or_nan. simpl.
  destruct (path sub ses) as [arr|e] eqn:Hp.
  - destruct (decide (shape arr ≠ shape_)) as [Hne|Heq]; simpl.
    + split; [done|]. intros (arr' & [= <-] & Hs & _). done.
    + destruct (Np.any_nan (data arr)) eqn:Hnan; simpl.
      * split; [done|]. intros (arr' & [= <-] & _ & Hn). congruence.
      * split; [intros _|done]. exists arr. split; [done|]. split; [|done].
        by destruct (decide (shape arr = shape_)).
  - rewrite (Hm e eq_refl). simpl. rewrite any_nan_replicate by done.
    split; [done|]. intros (arr' & Habs & _). done.
Qed.

(** X12.  For an expected shape with at least one entry, and files that
    either load or are absent, nothing is logged exactly when the file of
    every subject and session is present, has the expected shape and holds no
    NaN. *)
Theorem load_and_average_silent_iff (path : Store) (subjects : list string)
    (sessions : list SessionT) (shape_ : list nat) (average : bool) :
  only_missing path (product subjects sessions) →
  (0 < size_of shape_)%nat →
  (load_and_average path subjects sessions shape_ average).2 = []
  ↔ ∀ sub ses, (sub, ses) ∈ product subjects sessions →
      ∃ arr, path sub ses = Loaded arr ∧ shape arr = shape_
             ∧ Np.any_nan (data arr) = false.
Proof.
  intros Hm Hsize. rewrite load_and_average_stack by done. cbn [snd].
  rewrite Labels.concat_nil_iff, Forall_fmap, Forall_forall. split.
  - intros H sub ses Hin. apply slot_log_nil; [|done|by apply (H (sub, ses))].
    intros e. by apply Hm.
  - intros H [sub ses] Hin. apply slot_log_nil; [|done|by apply H].
    intros e. by apply Hm.
Qed.

(** Stored arrays have as many entries as their shape says. *)
Definition well_formed (path : Store) : Prop :=
  ∀ sub ses arr, path sub ses = Loaded arr → length (data arr) = size_of (shape arr).

Lemma slot_data_length (path : Store) (shape_ : list nat) (sub : string)
    (ses : SessionT) :
  well_formed path →
  (∀ e, path sub ses = LoadRaised e → e = FileNotFoundError) →
  length (slot_data path shape_ (sub, ses)) = size_of shape_.
Proof.
  intros Hwf Hm. unfold slot_data, load_or_nan. simpl.
  destruct (path sub ses) as [arr|e] eqn:Hp.
  - destruct (decide (shape arr ≠ shape_)) as [Hne|Heq]; simpl.
    + by rewrite length_replicate.
    + rewrite (Hwf sub ses arr Hp). f_equal.
      by destruct (decide (shape arr = shape_)).
  - rewrite (Hm e eq_refl). simpl. by rewrite length_replicate.
Qed.

Lemma stack_rectangular (path : Store) (items : list (string * SessionT))
    (shape_ : list nat) :
  well_formed path →
  only_missing path items →
  Forall (λ slot, length slot = size_of shape_) (slot_data path shape_ <$> items).
Proof.
  intros Hwf Hm.
  apply Forall_fmap, Forall_forall. intros [sub ses] Hin. simpl.
  apply slot_data_length; [done|]. intros e. by apply Hm.
Qed.

(** X13.  The stack is rectangular: it has one slot per subject and
    session, and every slot has the number of entries of the expected
    shape, whether it was loaded or substituted. *)
Theorem load_and_average_rectangular (path : Store) (subjects : list string)
    (sessions : list SessionT) (shape_ : list nat) :
  well_formed path →
  only_missing path (product subjects sessions) →
  ∃ res lg,
    load_and_average path subjects sessions shape_ false = (Returned (Stacked res), lg)
    ∧ length res = (length subjects * length sessions)%nat
    ∧ Forall (λ slot, length slot = size_of shape_) res.
Proof.
  intros Hwf Hm.
  eexists _, _. split; [rewrite load_and_average_stack by done; reflexivity|].
  split; [by rewrite length_fmap, length_product|].
  by apply stack_rectangular.
Qed.

Lemma count_not_nan_zero (l : list Np.fl) :
  Np.count_not_nan l = 0%nat ↔ Forall (λ x, x = Np.NaN) l.
Proof.
  unfold Np.count_not_nan. induction l as [|[|q] l IH].
  - split; [constructor|done].
  - rewrite filter_cons_False by done. rewrite IH. split.
    + by constructor.
    + by intros [_ H]%Forall_cons.
  - rewrite filter_cons_True by done. split; [done|].
    by intros [? _]%Forall_cons.
Qed.

Lemma nanmean_nan_iff (l : list Np.fl) :
  Np.nanmean l = Np.NaN ↔ Forall (λ x, x = Np.NaN) l.
Proof.
  unfold Np.nanmean. rewrite <- count_not_nan_zero. by case_decide.
Qed.

(** X14.  With [average=True] the result has the number of entries of the
    expected shape, and an entry of it is NaN exactly when that entry is NaN
    in the slot of every subject and session: one finite score suffices for
    a finite average. *)
Theorem load_and_average_nan_cells (path : Store) (subjects : list string)
    (sessions : list SessionT) (shape_ : list nat) :
  well_formed path →
  only_missing path (product subjects sessions) →
  ∃ res avg lg,
    load_and_average path subjects sessions shape_ false = (Returned (Stacked res), lg)
    ∧ load_and_average path subjects sessions shape_ true = (Returned (Averaged avg), lg)
    ∧ length avg = size_of shape_
    ∧ ∀ j, (j < size_of shape_)%nat →
        (avg !! j = Some Np.NaN ↔ Forall (λ slot, slot !! j = Some Np.NaN) res).
Proof.
  intros Hwf Hm.
  pose proof (stack_rectangular path (product subjects sessions) shape_ Hwf Hm)
    as Hrect.
  eexists _, _, _. split; [rewrite load_and_average_stack by done; reflexivity|].
  split; [by rewrite load_and_average_stack by done|].
  split; [unfold nanmean_axis0; by rewrite length_fmap, length_seq|].
  intros j Hj. unfold nanmean_axis0.
  rewrite list_lookup_fmap, lookup_seq_lt by done. simpl.
  split.
  - intros [= Hnan]. apply nanmean_nan_iff in Hnan. unfold Np.column in Hnan.
    rewrite Forall_fmap in Hnan. rewrite Forall_forall in Hnan, Hrect.
    apply Forall_forall. intros slot Hin. specialize (Hnan slot Hin). simpl in Hnan.
    specialize (Hrect slot Hin). simpl in Hrect.
    destruct (lookup_lt_is_Some_2 slot j) as [x Hx]; [lia|].
    rewrite (nth_lookup_Some _ _ _ _ Hx) in Hnan. by rewrite Hx, Hnan.
  - intros Hall. f_equal. apply nanmean_nan_iff. unfold Np.column.
    apply Forall_fmap, Forall_forall. intros slot Hin. simpl.
    rewrite Forall_forall in Hall. by apply nth_lookup_Some, Hall.
Qed.

(** The file of the second subject cannot be read. *)
Definition demo_store_corrupt : Store := λ sub ses,
  if decide (sub = "02"%string) then LoadRaised (OtherError "corrupt")
  else demo_store sub ses.

Lemma load_and_average_propagates_error_witness :
  ∃ lg,
    load_and_average demo_store_corrupt ["01"; "02"; "03"]%string [None] [2%nat] false
    = (Raised (OtherError "corrupt"), lg).
Proof.
  apply (load_and_average_propagates_error demo_store_corrupt
           ["01"; "02"; "03"]%string [None] [2%nat] false
           [("01"%string, None)] [("03"%string, None)] "02"%string None
           (OtherError "corrupt")).
  - reflexivity.
  - intros sub ses e Hin. apply list_elem_of_singleton in Hin. injection Hin as -> ->.
    discriminate.
  - reflexivity.
  - discriminate.
Defined.

Lemma load_and_average_slot_order_witness :
  ∃ res lg,
    load_and_average demo_store ["01"; "02"; "03"]%string [None] [2%nat] false
    = (Returned (Stacked res), lg)
    ∧ res !! (2 * length [@None string] + 0)%nat
      = Some [Np.Fin (8 # 10); Np.Fin (5 # 10)].
Proof.
  apply (load_and_average_slot_order demo_store ["01"; "02"; "03"]%string [None]
           [2%nat] 2 0 "03"%string None
           (MkArray [2%nat] [Np.Fin (8 # 10); Np.Fin (5 # 10)])).
  - apply demo_store_only_missing.
  - reflexivity.
  - reflexivity.
  - reflexivity.
  - reflexivity.
Defined.

Lemma load_and_average_silent_iff_witness :
  (load_and_average demo_store ["01"; "03"]%string [None] [2%nat] false).2 = []
  ↔ ∀ sub ses, (sub, ses) ∈ product ["01"; "03"]%string [None] →
      ∃ arr, demo_store sub ses = Loaded arr ∧ shape arr = [2%nat]
             ∧ Np.any_nan (data arr) = false.
Proof.
  apply (load_and_average_silent_iff demo_store ["01"; "03"]%string [None] [2%nat]
           false).
  - apply demo_store_only_missing.
  - simpl. lia.
Defined.

Lemma demo_store_well_formed : well_formed demo_store.
Proof.
  intros sub ses arr. unfold demo_store.
  repeat case_decide; intros [= <-]; reflexivity.
Qed.

Lemma load_and_average_rectangular_witness :
  ∃ res lg,
    load_and_average demo_store ["01"; "02"; "03"]%string [None] [2%nat] false
    = (Returned (Stacked res), lg)
    ∧ length res = (3 * 1)%nat
    ∧ Forall (λ slot, length slot = size_of [2%nat]) res.
Proof.
  apply (load_and_average_rectangular demo_store ["01"; "02"; "03"]%string [None]
           [2%nat]).
  - apply demo_store_well_formed.
  - apply demo_store_only_missing.
Defined.

Lemma load_and_average_nan_cells_witness :
  ∃ res avg lg,
    load_and_average demo_store ["01"; "02"; "03"]%string [None] [2%nat] false
    = (Returned (Stacked res), lg)
    ∧ load_and_average demo_store ["01"; "02"; "03"]%string [None] [2%nat] true
      = (Returned (Averaged avg), lg)
    ∧ length avg = size_of [2%nat]
    ∧ ∀ j, (j < size_of [2%nat])%nat →
        (avg !! j = Some Np.NaN ↔ Forall (λ slot, slot !! j = Some Np.NaN) res).
Proof.
  apply (load_and_average_nan_cells demo_store ["01"; "02"; "03"]%string [None]
           [2%nat]).
  - apply demo_store_well_formed.
  - apply demo_store_only_missing.
Defined.

End Loading.

(** ** A fact about the minimum *)

Module NpFacts.

Lemma Qminimum_lower (q : Q) (qs : list Q) :
  (Np.Qminimum q qs <= q)%Q ∧ Forall (λ x, (Np.Qminimum q qs <= x)%Q) qs.
Proof.
  induction qs as [|x qs [IH1 IH2]]; simpl.
  - split; [apply Qle_refl|constructor].
  - split.
    + eapply Qle_trans; [apply Q.le_min_r|done].
    + constructor; [apply Q.le_min_l|].
      eapply Forall_impl; [exact IH2|]. intros y Hy. simpl in Hy.
      eapply Qle_trans; [apply Q.le_min_r|done].
Qed.

End NpFacts.

(** ** Group level: [compute_conf_inter] and [group_analysis] *)

Module Group.

(** The dictionary [contrast_score_stats].  The source stores the standard
    error, the square root of the variance of the bootstrapped means; the
    model stores that variance ([mean_se_sq]), which is NaN exactly when the
    standard error is and whose non-negative root the standard error
    otherwise is. *)
Record ContrastScoreStats : Type := MkStats {
  cond_1 : Condition;
  cond_2 : Condition;
  stats_times : list Q;
  N : nat;
  mean : list Np.fl;
  mean_min : list Np.fl;
  mean_max : list Np.fl;
  mean_se_sq : list Np.fl;
  mean_ci_lower : list Np.fl;
  mean_ci_upper : list Np.fl
}.

(** What the report of the average subject shows. *)
Inductive figure : Type :=
| FigFrequency (freq_scores conf_int : list Np.fl)
| FigTimeFrequency (tf_scores : list Np.fl)
| FigStats (t_values p_values : list Np.fl).

(** What a completed group analysis has computed and saved. *)
Record GroupResult : Type := MkGroupResult {
  contrast_score_stats : ContrastScoreStats;
  t_clust : list Np.fl;
  clusters : list (list bool);
  p_values : list Q;
  p_clust : list Q;
  report : list figure
}.

(** [p_clust[cl] = p] for a boolean mask [cl].  The grid and the masks are
    two-dimensional arrays, flattened row by row: with [out_type='mask'] MNE
    returns masks of the shape of one observation, which is the shape of the
    grid.  For a two-dimensional mask of another shape NumPy raises
    [IndexError]. *)
Definition mask_assign (grid : list Q) (cl : list bool) (p : Q) : outcome (list Q) :=
  if decide (length cl = length grid)
  then Returned (zip_with (λ (m : bool) old, if m then p else old) cl grid)
  else Raised IndexError.

(** [p_clust = np.ones(...)] followed by
    [for cl, p in zip(clusters, p_values): p_clust[cl] = p]. *)
Definition fill_p_clust (size : nat) (clusters_ : list (list bool))
    (p_values_ : list Q) : outcome (list Q) :=
  foldl (λ acc clp, obind acc (λ grid, mask_assign grid clp.1 clp.2))
        (Returned (replicate size 1%Q)) (zip clusters_ p_values_).

(** [np.min(p_values)], evaluated on a non-empty list only. *)
Definition np_min_Q (l : list Q) : Q :=
  match l with
  | [] => 0%Q
  | p :: ps => Np.Qminimum p ps
  end.

Definition Qgt_bool (a b : Q) : bool := negb (Qle_bool a b).

(** The message of
    [if len(p_values) == 0 or np.min(p_values) > cfg.cluster_stats_alpha]. *)
Definition significance_message (p_values_ : list Q) (alpha : Q) : message :=
  if (length p_values_ =? 0)%nat || Qgt_bool (np_min_Q p_values_) alpha
  then MsgNotSignificant
  else MsgSignificant.

(** [mean_scores.min(axis=0)] and [mean_scores.max(axis=0)] *)
Definition min_axis0 (ncols : nat) (a : list (list Np.fl)) : outcome (list Np.fl) :=
  match a with
  | [] => Raised ValueError
  | _ => Returned ((λ j, Np.minimum_of (Np.column a j)) <$> seq 0 ncols)
  end.

Definition max_axis0 (ncols : nat) (a : list (list Np.fl)) : outcome (list Np.fl) :=
  match a with
  | [] => Raised ValueError
  | _ => Returned ((λ j, Np.maximum_of (Np.column a j)) <$> seq 0 ncols)
  end.

(** *** The corrected p-value grid and the significance message *)

(** The value of cell [k] after the assignments of the loop, starting
    from [v]: the p-value of the last cluster whose mask holds [k]. *)
Definition cell_value (k : nat) (v : Q) (clps : list (list bool * Q)) : Q :=
  foldl (λ v clp, if decide (clp.1 !! k = Some true) then clp.2 else v) v clps.

Lemma mask_assign_lookup (grid : list Q) (cl : list bool) (p : Q) :
  length cl = length grid →
  ∃ grid', mask_assign grid cl p = Returned grid'
    ∧ length grid' = length grid
    ∧ ∀ k v, grid !! k = Some v →
        grid' !! k = Some (if decide (cl !! k = Some true) then p else v).
Proof.
  intros Hlen. unfold mask_assign. rewrite decide_True by done.
  eexists. split; [done|]. split.
  - rewrite length_zip_with. lia.
  - intros k v Hk. rewrite lookup_zip_with, Hk.
    destruct (cl !! k) as [[]|] eqn:Hc; simpl; try done.
    apply lookup_lt_Some in Hk. apply lookup_ge_None in Hc. lia.
Qed.

Lemma fill_loop (clps : list (list bool * Q)) :
  ∀ grid : list Q,
    Forall (λ clp, length clp.1 = length grid) clps →
    ∃ grid',
      foldl (λ acc clp, obind acc (λ g, mask_assign g clp.1 clp.2))
            (Returned grid) clps = Returned grid'
      ∧ length grid' = length grid
      ∧ ∀ k v, grid !! k = Some v → grid' !! k = Some (cell_value k v clps).
Proof.
  induction clps as [|[cl p] clps IH]; intros grid Hall.
  - exists grid. simpl. eauto.
  - apply Forall_cons in Hall as [Hcl Hall]. simpl in Hcl.
    destruct (mask_assign_lookup grid cl p Hcl) as (g1 & Hg1 & Hlen1 & Hcell1).
    cbn [foldl obind fst snd]. rewrite Hg1.
    destruct (IH g1) as (g2 & Hg2 & Hlen2 & Hcell2).
    { rewrite Hlen1. done. }
    exists g2. split; [done|]. split; [congruence|].
    intros k v Hk. rewrite (Hcell2 k _ (Hcell1 k v Hk)). done.
Qed.

Lemma cell_value_outside (k : nat) (v : Q) (clps : list (list bool * Q)) :
  Forall (λ clp, clp.1 !! k ≠ Some true) clps → cell_value k v clps = v.
Proof.
  revert v. induction clps as [|[cl p] clps IH]; intros v Hall; [done|].
  apply Forall_cons in Hall as [Hcl Hall]. unfold cell_value in *. simpl in *.
  rewrite decide_False by done. by apply IH.
Qed.

Lemma cell_value_inside (k i : nat) (v : Q) (clps : list (list bool * Q))
    (cl : list bool) (p : Q) :
  clps !! i = Some (cl, p) → cl !! k = Some true →
  (∀ j clp, (i < j)%nat → clps !! j = Some clp → clp.1 !! k ≠ Some true) →
  cell_value k v clps = p.
Proof.
  revert i v. induction clps as [|[cl0 p0] clps IH]; intros i v Hi Hk Hlater; [done|].
  destruct i as [|i]; simpl in Hi.
  - injection Hi as -> ->. unfold cell_value. simpl. rewrite decide_True by done.
    apply cell_value_outside, Forall_lookup. intros j clp Hj.
    apply (Hlater (S j) clp); [lia|done].
  - unfold cell_value. simpl. apply (IH i); [done|done|].
    intros j clp Hlt Hj. apply (Hlater (S j) clp); [lia|done].
Qed.

(** No cell lies in two cluster masks. *)
Definition disjoint_masks (clusters_ : list (list bool)) : Prop :=
  ∀ i j cl1 cl2 k, i ≠ j → clusters_ !! i = Some cl1 → clusters_ !! j = Some cl2 →
                   cl1 !! k = Some true → cl2 !! k = Some true → False.

Lemma Qminimum_in (q : Q) (qs : list Q) :
  ∃ x, x ∈ q :: qs ∧ (x == Np.Qminimum q qs)%Q.
Proof.
  induction qs as [|y qs (x & Hx & Heq)]; simpl.
  - exists q. split; [apply list_elem_of_here|reflexivity].
  - destruct (Q.min_dec y (Np.Qminimum q qs)) as [Hm|Hm].
    + exists y. split; [apply list_elem_of_further, list_elem_of_here|].
      unfold Np.Qminimum in *. by rewrite Hm.
    + exists x. split.
      * apply elem_of_cons in Hx as [->|Hx]; [apply list_elem_of_here|].
        by do 2 apply list_elem_of_further.
      * unfold Np.Qminimum in *. by rewrite Hm.
Qed.

Lemma significance_message_iff (p_values_ : list Q) (alpha : Q) :
  significance_message p_values_ alpha = MsgSignificant
  ↔ ∃ p, p ∈ p_values_ ∧ (p <= alpha)%Q.
Proof.
  unfold significance_message, Qgt_bool.
  destruct p_values_ as [|p ps]; simpl.
  - split; [done|]. intros (p & Hp & _). by apply elem_of_nil in Hp.
  - destruct (Qle_bool (Np.Qminimum p ps) alpha) eqn:Hle; simpl.
    + split; [intros _|done]. apply Qle_bool_iff in Hle.
      destruct (Qminimum_in p ps) as (x & Hx & Heq).
      exists x. split; [done|]. by rewrite Heq.
    + split; [done|]. intros (x & Hx & Hxa).
      assert (Hmin : (Np.Qminimum p ps <= alpha)%Q).
      { destruct (NpFacts.Qminimum_lower p ps) as [H1 H2].
        apply elem_of_cons in Hx as [->|Hx].
        - by eapply Qle_trans.
        - rewrite Forall_forall in H2. eapply Qle_trans; [by apply H2|done]. }
      apply Qle_bool_iff in Hmin. congruence.
Qed.

(** When there are as many masks as p-values, each mask of the size of the
    grid, and no cell lies in two masks, the grid is filled without error: a
    cell inside a cluster's mask holds that cluster's p-value, a cell inside
    no mask holds 1. *)
Lemma fill_p_clust_cells (size : nat) (clusters_ : list (list bool))
    (p_values_ : list Q) :
  length clusters_ = length p_values_ →
  Forall (λ cl, length cl = size) clusters_ →
  disjoint_masks clusters_ →
  ∃ grid,
    fill_p_clust size clusters_ p_values_ = Returned grid
    ∧ length grid = size
    ∧ (∀ i cl p k, clusters_ !! i = Some cl → p_values_ !! i = Some p →
                   cl !! k = Some true → grid !! k = Some p)
    ∧ (∀ k, (k < size)%nat → (∀ cl, cl ∈ clusters_ → cl !! k ≠ Some true) →
            grid !! k = Some 1%Q).
Proof.
  intros Hlen Hsize Hdisj. unfold fill_p_clust.
  destruct (fill_loop (zip clusters_ p_values_) (replicate size 1%Q))
    as (grid & Hgrid & Hglen & Hcell).
  { apply Forall_forall. intros [cl p] Hin. simpl. rewrite length_replicate.
    apply elem_of_zip_l in Hin. rewrite Forall_forall in Hsize. by apply Hsize. }
  rewrite length_replicate in Hglen.
  exists grid. split; [done|]. split; [done|]. split.
  - intros i cl p k Hcl Hp Hk.
    assert (Hklt : (k < size)%nat).
    { apply lookup_lt_Some in Hk. rewrite Forall_forall in Hsize.
      rewrite <- (Hsize cl); [done|]. by eapply list_elem_of_lookup_2. }
    rewrite (Hcell k 1%Q) by (by apply lookup_replicate_2).
    f_equal. apply (cell_value_inside k i _ _ cl p); [|done|].
    + rewrite lookup_zip_with, Hcl, Hp. done.
    + intros j [cl' p'] Hlt Hj Hk'. simpl in Hk'.
      rewrite lookup_zip_with in Hj.
      destruct (clusters_ !! j) as [cl''|] eqn:Hcl''; [|done]. simpl in Hj.
      destruct (p_values_ !! j); [|done]. simpl in Hj. injection Hj as -> ->.
      apply (Hdisj i j cl cl' k); [lia|done..].
  - intros k Hk Hout. rewrite (Hcell k 1%Q) by (by apply lookup_replicate_2).
    f_equal. apply cell_value_outside, Forall_forall. intros [cl p] Hin. simpl.
    apply Hout. by apply elem_of_zip_l in Hin.
Qed.

Definition demo_p_values : list Q := [3 # 100; 40 # 100]%Q.

(** *** Facts about the reductions of [compute_conf_inter] *)

Lemma all_fin_nan (l : list Np.fl) : Np.NaN ∈ l → Np.all_fin l = None.
Proof.
  induction l as [|[|q] l IH]; intros Hin.
  - by apply elem_of_nil in Hin.
  - done.
  - apply elem_of_cons in Hin as [Hin|Hin]; [done|]. simpl. by rewrite IH.
Qed.

(** The entries that are not NaN. *)
Fixpoint finite_values (l : list Np.fl) : list Q :=
  match l with
  | [] => []
  | Np.NaN :: l' => finite_values l'
  | Np.Fin q :: l' => q :: finite_values l'
  end.

Lemma nanmean_finite_values (l : list Np.fl) (q : Q) (qs : list Q) :
  finite_values l = q :: qs →
  Np.fl_eq (Np.nanmean l) (Np.Fin (Np.Qsum (q :: qs) / Np.Qlen (q :: qs))).
Proof.
  intros Hfin.
  assert (Hsum : (Np.Qsum (Np.nan_to_zero <$> l) == Np.Qsum (finite_values l))%Q).
  { clear. induction l as [|[|x] l IH]; simpl; [reflexivity| |].
    - unfold Np.Qsum in *. simpl. rewrite IH. lra.
    - unfold Np.Qsum in *. simpl. by rewrite IH. }
  assert (Hcnt : Np.count_not_nan l = length (finite_values l)).
  { clear. unfold Np.count_not_nan.
    induction l as [|[|x] l IH]; cbn [finite_values]; [done| |].
    - by rewrite filter_cons_False.
    - rewrite filter_cons_True by done. simpl. by rewrite IH. }
  unfold Np.nanmean. rewrite Hcnt, Hfin. rewrite decide_False by done.
  simpl. unfold Np.Qlen. rewrite Hsum, Hfin. reflexivity.
Qed.

Lemma lookup_fmap_seq {A} (f : nat → A) (n j : nat) :
  (j < n)%nat → (f <$> seq 0 n) !! j = Some (f j).
Proof. intros Hj. by rewrite list_lookup_fmap, lookup_seq_lt. Qed.

Lemma column_nonempty (a : list (list Np.fl)) (j : nat) :
  a ≠ [] → Np.column a j ≠ [].
Proof. destruct a; [done|]. done. Qed.

(** *** Further properties of the corrected p-value grid *)

(** X15.  Later clusters overwrite earlier ones: when several masks hold a
    cell, the grid keeps the p-value of the last of them in the list. *)
Theorem fill_p_clust_last_cluster_wins (size : nat) (clusters_ : list (list bool))
    (p_values_ : list Q) (i k : nat) (cl : list bool) (p : Q) :
  Forall (λ cl, length cl = size) clusters_ →
  clusters_ !! i = Some cl →
  p_values_ !! i = Some p →
  cl !! k = Some true →
  (∀ j cl' p', (i < j)%nat → clusters_ !! j = Some cl' → p_values_ !! j = Some p' →
               cl' !! k ≠ Some true) →
  ∃ grid, fill_p_clust size clusters_ p_values_ = Returned grid
          ∧ grid !! k = Some p.
Proof.
  intros Hsize Hcl Hp Hk Hlater. unfold fill_p_clust.
  destruct (fill_loop (zip clusters_ p_values_) (replicate size 1%Q))
    as (grid & Hgrid & Hglen & Hcell).
  { apply Forall_forall. intros [cl0 p0] Hin. simpl. rewrite length_replicate.
    apply elem_of_zip_l in Hin. rewrite Forall_forall in Hsize. by apply Hsize. }
  exists grid. split; [done|].
  assert (Hklt : (k < size)%nat).
  { apply lookup_lt_Some in Hk. rewrite Forall_forall in Hsize.
    rewrite <- (Hsize cl); [done|]. by eapply list_elem_of_lookup_2. }
  rewrite (Hcell k 1%Q) by (by apply lookup_replicate_2).
  f_equal. apply (cell_value_inside k i _ _ cl p); [|done|].
  - rewrite lookup_zip_with, Hcl, Hp. done.
  - intros j [cl' p'] Hlt Hj. simpl. rewrite lookup_zip_with in Hj.
    destruct (clusters_ !! j) as [cl''|] eqn:Hcl''; [|done]. simpl in Hj.
    destruct (p_values_ !! j) as [p''|] eqn:Hp''; [|done]. simpl in Hj.
    injection Hj as -> ->. by apply (Hlater j cl' p').
Qed.

Section Analysis.

(** NumPy's random generator: its state, the state an integer seed gives,
    and one draw of an index below a bound. *)
Variable G : Type.
Variable seed_rng : Z → G.
Variable integers : G → nat → nat * G.

(** SciPy's one-sample t-test along the first axis (statistics, p-values)
    and the quantile function of Student's t distribution. *)
Variable ttest_1samp : list (list Np.fl) → list Np.fl * list Np.fl.
Variable t_ppf : Q → Z → Np.fl.

(** MNE's [permutation_cluster_1samp_test] with [out_type='mask']: from the
    generator it draws its sign flips from, the data, the threshold and the
    number of permutations to [t_obs], the cluster masks, the cluster
    p-values and [H0]. *)
Variable permutation_cluster_1samp_test :
  G → list (list Np.fl) → Np.fl → nat →
  list Np.fl * list (list bool) * list Q * list Np.fl.

(** [np.random.default_rng(seed)]: with [seed=None] the state comes from the
    operating system's entropy. *)
Definition default_rng (seed : option Z) (entropy : G) : G :=
  match seed with
  | Some s => seed_rng s
  | None => entropy
  end.

(** [k] draws with replacement from [a]. *)
Fixpoint draw (g : G) (a : list Np.fl) (k : nat) : list Np.fl * G :=
  match k with
  | O => ([], g)
  | S k' =>
      let '(i, g1) := integers g (length a) in
      let '(xs, g2) := draw g1 a k' in
      (nth i a Np.NaN :: xs, g2)
  end.

Fixpoint draw_rows (g : G) (a : list Np.fl) (rows cols : nat)
    : list (list Np.fl) * G :=
  match rows with
  | O => ([], g)
  | S rows' =>
      let '(r, g1) := draw g a cols in
      let '(rs, g2) := draw_rows g1 a rows' cols in
      (r :: rs, g2)
  end.

(** [rng.choice(a, size=(rows, cols), replace=True)]: [ValueError] on an
    empty [a] unless no sample is taken. *)
Definition choice (g : G) (a : list Np.fl) (rows cols : nat)
    : outcome (list (list Np.fl)) * G :=
  if decide (a = [] ∧ (rows * cols)%nat ≠ 0%nat)
  then (Raised ValueError, g)
  else let '(m, g') := draw_rows g a rows cols in (Returned m, g').

(** The body of [for time_idx in range(tf.n_freq_windows)]: the squared
    standard error and the two interval bounds of one frequency bin. *)
Definition bootstrap_bin (cfg : Config) (n_subjects : nat)
    (mean_scores : list (list Np.fl)) (g : G) (time_idx : nat)
    : outcome (Np.fl * Np.fl * Np.fl) * G :=
  match choice g (Np.column mean_scores time_idx) (n_boot cfg) n_subjects with
  | (Raised e, g') => (Raised e, g')
  | (Returned scores_resampled, g') =>
      let bootstrapped_means := Np.mean <$> scores_resampled in
      let se_sq := Np.var_ddof1 bootstrapped_means in
      let ci_lower := Np.quantile bootstrapped_means (25 # 1000) in
      let ci_upper := Np.quantile bootstrapped_means (975 # 1000) in
      (Returned (se_sq, ci_lower, ci_upper), g')
  end.

Fixpoint bootstrap_loop (cfg : Config) (n_subjects : nat)
    (mean_scores : list (list Np.fl)) (g : G) (idxs : list nat)
    : outcome (list (Np.fl * Np.fl * Np.fl)) * G :=
  match idxs with
  | [] => (Returned [], g)
  | time_idx :: idxs' =>
      match bootstrap_bin cfg n_subjects mean_scores g time_idx with
      | (Raised e, g1) => (Raised e, g1)
      | (Returned b, g1) =>
          match bootstrap_loop cfg n_subjects mean_scores g1 idxs' with
          | (Raised e, g2) => (Raised e, g2)
          | (Returned bs, g2) => (Returned (b :: bs), g2)
          end
      end
  end.

(** [compute_conf_inter].  The rows of [mean_scores] are the subjects and
    sessions, its columns the [tf.n_freq_windows] frequency bins. *)
Definition compute_conf_inter (mean_scores : list (list Np.fl))
    (subjects : list string) (contrast : ContrastT) (cfg : Config) (tf : Tf)
    (entropy : G) : outcome ContrastScoreStats :=
  let n := n_freq_windows tf in
  let mean_ := Loading.nanmean_axis0 n mean_scores in
  obind (min_axis0 n mean_scores) (λ mean_min_,
  obind (max_axis0 n mean_scores) (λ mean_max_,
  let rng := default_rng (random_state cfg) entropy in
  obind (bootstrap_loop cfg (length subjects) mean_scores rng (seq 0 n)).1 (λ boots,
  Returned (MkStats contrast.1 contrast.2 (times tf) (length subjects)
              mean_ mean_min_ mean_max_
              ((λ b, b.1.1) <$> boots)
              ((λ b, b.1.2) <$> boots)
              ((λ b, b.2) <$> boots))))).

(** [X - chance] *)
Definition sub_chance (x : Np.fl) : Np.fl :=
  match x with
  | Np.NaN => Np.NaN
  | Np.Fin q => Np.Fin (q - chance)
  end.

(** The stack a call of [load_and_average] with [average=False] returns,
    the average one with [average=True] returns. *)
Definition stacked (r : outcome Loading.loaded) : outcome (list (list Np.fl)) :=
  obind r (λ l, match l with
                | Loading.Stacked res => Returned res
                | Loading.Averaged _ => Raised (OtherError "not a stack")
                end).

Definition averaged (r : outcome Loading.loaded) : outcome (list Np.fl) :=
  obind r (λ l, match l with
                | Loading.Averaged a => Returned a
                | Loading.Stacked _ => Raised (OtherError "not an average")
                end).

(** [group_analysis].  [freq_scores] and [tf_scores] are the persisted
    arrays as [pth.freq_scores] and [pth.tf_scores] locate them;
    [entropy k] is the [k]-th generator state taken from the operating
    system during the run.  The result is [None] when the function returns
    before anything is computed. *)
Definition group_analysis (subjects : list string) (sessions : list SessionT)
    (contrast : ContrastT) (cfg : Config) (freq_scores tf_scores : Loading.Store)
    (tf : Tf) (entropy : nat → G)
    : outcome (option GroupResult) * list log_entry :=
  let lg0 := [Log Info MsgRunningGroup] in
  if decide (length subjects < 2)%nat
  then (Returned None, lg0 ++ [Log Warning MsgOneSubject])
  else
    let nf := n_freq_windows tf in
    let nt := n_time_windows tf in
    (* 1. Average roc-auc scores across subjects *)
    let '(r1, lg1) :=
      Loading.load_and_average freq_scores subjects sessions [nf] false in
    match stacked r1 with
    | Raised e => (Raised e, lg0 ++ lg1)
    | Returned all_freq_scores =>
    let freq_scores_ := Loading.nanmean_axis0 nf all_freq_scores in
    match compute_conf_inter all_freq_scores subjects contrast cfg tf (entropy 0%nat) with
    | Raised e => (Raised e, lg0 ++ lg1)
    | Returned stats =>
    let fig1 := FigFrequency freq_scores_ (mean_se_sq stats) in
    let '(r2, lg2) :=
      Loading.load_and_average tf_scores subjects sessions [nf; nt] true in
    match averaged r2 with
    | Raised e => (Raised e, lg0 ++ lg1 ++ lg2)
    | Returned all_tf_scores =>
    let lg3 := if Np.any_nan all_tf_scores then [Log Info MsgNaNInBins] else [] in
    let fig2 := FigTimeFrequency all_tf_scores in
    (* 2. Statistical tests *)
    let '(r3, lg4) :=
      Loading.load_and_average tf_scores subjects sessions [nf; nt] false in
    match stacked r3 with
    | Raised e => (Raised e, lg0 ++ lg1 ++ lg2 ++ lg3 ++ lg4)
    | Returned X0 =>
    let X := (λ slot : list Np.fl, sub_chance <$> slot) <$> X0 in
    let out := ttest_1samp X in
    let threshold :=
      t_ppf (1 - cluster_t_dist_alpha_thres cfg) (Z.of_nat (length subjects) - 1) in
    let '(t_clust_, clusters_, p_values_, H0) :=
      permutation_cluster_1samp_test (entropy 1%nat) X threshold (n_permutations cfg) in
    let lg5 := [Log Info MsgPermutationsDone] in
    match fill_p_clust (nf * nt) clusters_ p_values_ with
    | Raised e => (Raised e, lg0 ++ lg1 ++ lg2 ++ lg3 ++ lg4 ++ lg5)
    | Returned p_clust_ =>
    let lg6 := [Log Info (MsgFoundClusters (length p_values_));
                Log Info (significance_message p_values_ (cluster_stats_alpha cfg))] in
    let figs := [fig1; fig2; FigStats out.1 out.2;
                 FigStats t_clust_ (Np.Fin <$> p_clust_)] in
    (Returned (Some (MkGroupResult stats t_clust_ clusters_ p_values_ p_clust_ figs)),
     lg0 ++ lg1 ++ lg2 ++ lg3 ++ lg4 ++ lg5 ++ lg6
     ++ [Log Info MsgReportSaved; Log Info MsgGroupFinished])
    end end end end end.

(** *** The bootstrap loop returns *)

Lemma choice_returns (g : G) (a : list Np.fl) (rows cols : nat) :
  a ≠ [] →
  choice g a rows cols
  = (Returned (draw_rows g a rows cols).1, (draw_rows g a rows cols).2).
Proof.
  intros Ha. unfold choice. rewrite decide_False by (intros [? _]; done).
  by destruct (draw_rows g a rows cols).
Qed.

(** The three statistics of one bin, from the generator state at hand. *)
Definition bin_stats (cfg : Config) (n_subjects : nat)
    (mean_scores : list (list Np.fl)) (g : G) (time_idx : nat)
    : Np.fl * Np.fl * Np.fl :=
  let bootstrapped_means :=
    Np.mean <$> (draw_rows g (Np.column mean_scores time_idx)
                   (n_boot cfg) n_subjects).1 in
  (Np.var_ddof1 bootstrapped_means,
   Np.quantile bootstrapped_means (25 # 1000),
   Np.quantile bootstrapped_means (975 # 1000)).

Lemma bootstrap_bin_returns (cfg : Config) (n_subjects : nat)
    (mean_scores : list (list Np.fl)) (g : G) (time_idx : nat) :
  mean_scores ≠ [] →
  ∃ g', bootstrap_bin cfg n_subjects mean_scores g time_idx
        = (Returned (bin_stats cfg n_subjects mean_scores g time_idx), g').
Proof.
  intros Hne. unfold bootstrap_bin, bin_stats.
  rewrite choice_returns by (by apply column_nonempty). eauto.
Qed.

(** Each bin's statistics come from some state of the generator. *)
Lemma bootstrap_loop_returns (cfg : Config) (n_subjects : nat)
    (mean_scores : list (list Np.fl)) (idxs : list nat) :
  mean_scores ≠ [] →
  ∀ g, ∃ bs g',
    bootstrap_loop cfg n_subjects mean_scores g idxs = (Returned bs, g')
    ∧ Forall2 (λ time_idx b,
                 ∃ gk, b = bin_stats cfg n_subjects mean_scores gk time_idx)
              idxs bs.
Proof.
  intros Hne. induction idxs as [|idx idxs IH]; intros g; simpl.
  - eexists _, _. split; [done|constructor].
  - destruct (bootstrap_bin_returns cfg n_subjects mean_scores g idx Hne) as [g1 H1].
    rewrite H1. destruct (IH g1) as (bs & g2 & H2 & Hall). rewrite H2.
    eexists _, _. split; [done|]. constructor; eauto.
Qed.

Lemma compute_conf_inter_returns (mean_scores : list (list Np.fl))
    (subjects : list string) (contrast : ContrastT) (cfg : Config) (tf : Tf)
    (entropy : G) :
  mean_scores ≠ [] →
  ∃ stats,
    compute_conf_inter mean_scores subjects contrast cfg tf entropy = Returned stats
    ∧ mean stats = Loading.nanmean_axis0 (n_freq_windows tf) mean_scores
    ∧ mean_min stats
      = (λ j, Np.minimum_of (Np.column mean_scores j)) <$> seq 0 (n_freq_windows tf)
    ∧ mean_max stats
      = (λ j, Np.maximum_of (Np.column mean_scores j)) <$> seq 0 (n_freq_windows tf)
    ∧ ∀ j, (j < n_freq_windows tf)%nat →
        ∃ gk, let b := bin_stats cfg (length subjects) mean_scores gk j in
              mean_se_sq stats !! j = Some b.1.1
              ∧ mean_ci_lower stats !! j = Some b.1.2
              ∧ mean_ci_upper stats !! j = Some b.2.
Proof.
  intros Hne. unfold compute_conf_inter, min_axis0, max_axis0.
  destruct mean_scores as [|row rows] eqn:Hms; [done|]. rewrite <- Hms in *.
  assert (Hne' : mean_scores ≠ []) by (by rewrite Hms).
  destruct (bootstrap_loop_returns cfg (length subjects) mean_scores
              (seq 0 (n_freq_windows tf)) Hne'
              (default_rng (random_state cfg) entropy))
    as (bs & g' & Hbs & Hall).
  cbn [obind]. rewrite Hbs. cbn [fst obind].
  eexists. split; [done|]. cbn. repeat split.
  intros j Hj.
  assert (Hjs : seq 0 (n_freq_windows tf) !! j = Some j) by (by apply lookup_seq_lt).
  destruct (Forall2_lookup_l _ _ _ _ _ Hall Hjs) as (b & Hb & gk & ->).
  exists gk. cbn. rewrite !list_lookup_fmap, Hb. done.
Qed.

(** *** Which values the bootstrap draws *)

(** The indices that [k] successive draws below [bound] give, and the state
    of the generator after them. *)
Fixpoint indices (g : G) (bound k : nat) : list nat * G :=
  match k with
  | O => ([], g)
  | S k' =>
      let '(i, g1) := integers g bound in
      let '(rest, g2) := indices g1 bound k' in
      (i :: rest, g2)
  end.

(** The state of the generator when the loop reaches bin [j]: each earlier
    bin has taken [per_bin] draws below [bound]. *)
Fixpoint generator_at (g : G) (bound per_bin j : nat) : G :=
  match j with
  | O => g
  | S j' => generator_at (indices g bound per_bin).2 bound per_bin j'
  end.









(** C10.  In a bin where some subject's score is NaN, [mean_min] and
    [mean_max] are NaN, while [mean] is the NaN-aware mean: the mean of the
    scores that are not NaN, a finite number as soon as there is one. *)
Theorem compute_conf_inter_nan_bin (mean_scores : list (list Np.fl))
    (subjects : list string) (contrast : ContrastT) (cfg : Config) (tf : Tf)
    (entropy : G) (j : nat) :
  mean_scores ≠ [] →
  (j < n_freq_windows tf)%nat →
  Np.NaN ∈ Np.column mean_scores j →
  ∃ stats,
    compute_conf_inter mean_scores subjects contrast cfg tf entropy = Returned stats
    ∧ mean_min stats !! j = Some Np.NaN
    ∧ mean_max stats !! j = Some Np.NaN
    ∧ mean stats !! j = Some (Np.nanmean (Np.column mean_scores j))
    ∧ ∀ q qs, finite_values (Np.column mean_scores j) = q :: qs →
        Np.fl_eq (Np.nanmean (Np.column mean_scores j))
                 (Np.Fin (Np.Qsum (q :: qs) / Np.Qlen (q :: qs))).
Proof.
  intros Hne Hj Hnan.
  destruct (compute_conf_inter_returns mean_scores subjects contrast cfg tf entropy Hne)
    as (stats & Hret & Hmean & Hmin & Hmax & _).
  exists stats. split; [done|].
  rewrite Hmin, Hmax, Hmean. unfold Loading.nanmean_axis0.
  rewrite !lookup_fmap_seq by done.
  unfold Np.minimum_of, Np.maximum_of. rewrite (all_fin_nan _ Hnan).
  repeat split. intros q qs Hfin. by apply nanmean_finite_values.
Qed.

(** C5.  With fewer than two subjects the function only logs a warning and
    returns: nothing is loaded or computed and nothing is raised.  As every
    subject has at least one session, fewer than two subjects and sessions
    means fewer than two subjects; hence the analysis proceeds only with at
    least two subjects and sessions. *)
Theorem group_analysis_needs_two_subjects (subjects : list string)
    (sessions : list SessionT) (contrast : ContrastT) (cfg : Config)
    (freq_scores tf_scores : Loading.Store) (tf : Tf) (entropy : nat → G) :
  sessions ≠ [] →
  ((length subjects * length sessions < 2)%nat →
     group_analysis subjects sessions contrast cfg freq_scores tf_scores tf entropy
     = (Returned None, [Log Info MsgRunningGroup; Log Warning MsgOneSubject]))
  ∧ (length subjects = 1%nat →
     group_analysis subjects sessions contrast cfg freq_scores tf_scores tf entropy
     = (Returned None, [Log Info MsgRunningGroup; Log Warning MsgOneSubject]))
  ∧ ((group_analysis subjects sessions contrast cfg freq_scores tf_scores tf entropy).1
     ≠ Returned None →
     (2 ≤ length subjects * length sessions)%nat).
Proof.
  intros Hses.
  assert (Hpos : (1 ≤ length sessions)%nat) by (destruct sessions; [done|simpl; lia]).
  assert (Hearly : (length subjects < 2)%nat →
            group_analysis subjects sessions contrast cfg freq_scores tf_scores tf entropy
            = (Returned None, [Log Info MsgRunningGroup; Log Warning MsgOneSubject])).
  { intros Hlt. unfold group_analysis. by rewrite decide_True. }
  split; [|split].
  - intros Hlt. apply Hearly. nia.
  - intros H1. apply Hearly. lia.
  - intros Hne. destruct (decide (length subjects < 2)%nat) as [Hlt|Hge].
    + rewrite (Hearly Hlt) in Hne. done.
    + nia.
Qed.

(** *** Which generator each stage draws from *)

(** The first three outputs of the permutation test. *)
Definition cluster_outputs
    (r : list Np.fl * list (list bool) * list Q * list Np.fl)
    : list Np.fl * list (list bool) * list Q :=
  (r.1.1.1, r.1.1.2, r.1.2).

(** C4 (what the code does).  Take two completed runs on the same input with
    the same integer seed, differing only in the entropy the operating
    system hands out.  Their bootstrap statistics are equal: the bootstrap
    generator is built from the seed.  Their cluster outputs are those of
    [permutation_cluster_1samp_test] on the same data, threshold and number
    of permutations, but each run hands it the generator of its own entropy:
    the seed does not reach the permutation test. *)
Theorem group_analysis_seed_reaches_bootstrap_only (subjects : list string)
    (sessions : list SessionT) (contrast : ContrastT) (cfg : Config)
    (freq_scores tf_scores : Loading.Store) (tf : Tf) (entropy entropy' : nat → G)
    (seed : Z) (r r' : GroupResult) (lg lg' : list log_entry) :
  random_state cfg = Some seed →
  group_analysis subjects sessions contrast cfg freq_scores tf_scores tf entropy
  = (Returned (Some r), lg) →
  group_analysis subjects sessions contrast cfg freq_scores tf_scores tf entropy'
  = (Returned (Some r'), lg') →
  contrast_score_stats r = contrast_score_stats r'
  ∧ ∃ X threshold,
      (t_clust r, clusters r, p_values r)
      = cluster_outputs (permutation_cluster_1samp_test (entropy 1%nat) X threshold
                           (n_permutations cfg))
      ∧ (t_clust r', clusters r', p_values r')
        = cluster_outputs (permutation_cluster_1samp_test (entropy' 1%nat) X threshold
                             (n_permutations cfg)).
Proof.
  intros Hseed H1 H2. unfold group_analysis in H1, H2.
  case_decide; [done|].
  assert (Hcci : ∀ ms,
            compute_conf_inter ms subjects contrast cfg tf (entropy 0%nat)
            = compute_conf_inter ms subjects contrast cfg tf (entropy' 0%nat)).
  { intros ms. unfold compute_conf_inter, default_rng. by rewrite Hseed. }
  destruct (Loading.load_and_average freq_scores subjects sessions
              [n_freq_windows tf] false) as [r1 l1].
  destruct (stacked r1) as [all_freq_scores|e]; [|done].
  rewrite <- Hcci in H2.
  destruct (compute_conf_inter all_freq_scores subjects contrast cfg tf (entropy 0%nat))
    as [stats|e]; [|done].
  destruct (Loading.load_and_average tf_scores subjects sessions
              [n_freq_windows tf; n_time_windows tf] true) as [r2 l2].
  destruct (averaged r2) as [all_tf_scores|e]; [|done].
  destruct (Loading.load_and_average tf_scores subjects sessions
              [n_freq_windows tf; n_time_windows tf] false) as [r3 l3].
  destruct (stacked r3) as [X0|e]; [|done].
  destruct (permutation_cluster_1samp_test (entropy 1%nat) _ _ _)
    as [[[tc cls] ps] h0] eqn:Hp.
  destruct (permutation_cluster_1samp_test (entropy' 1%nat) _ _ _)
    as [[[tc' cls'] ps'] h0'] eqn:Hp'.
  destruct (fill_p_clust _ cls ps) as [pc|e]; [|done].
  destruct (fill_p_clust _ cls' ps') as [pc'|e]; [|done].
  simplify_eq/=. split; [done|].
  eexists _, _. rewrite Hp, Hp'. done.
Qed.

(** *** The corrected grid and the verdict of a run *)

(** What MNE's permutation test returns with [out_type='mask'] for
    observations of [size] cells: as many masks as p-values, each mask of
    the shape of one observation, no cell in two masks. *)
Definition clusters_partition_data : Prop :=
  ∀ g X threshold n size,
    X ≠ [] → Forall (λ slot, length slot = size) X →
    length (permutation_cluster_1samp_test g X threshold n).1.1.2
    = length (permutation_cluster_1samp_test g X threshold n).1.2
    ∧ Forall (λ cl, length cl = size)
             (permutation_cluster_1samp_test g X threshold n).1.1.2
    ∧ disjoint_masks (permutation_cluster_1samp_test g X threshold n).1.1.2.

(** C9.  With at least two subjects, one session and one bootstrap
    resample, score files that load or are absent and a grid of at least one
    window each way, the run reaches the permutation test and completes.
    Its clusters and p-values are those the test returns.  In the corrected
    grid it saves and plots, a cell inside a cluster's mask holds that
    cluster's p-value and every other cell holds 1.  After the message that
    counts the clusters the run logs its verdict: the message of a
    significant result exactly when some cluster's p-value is at most
    [cluster_stats_alpha], and the message of a non-significant result
    otherwise. *)
Theorem cluster_grid_and_significance (subjects : list string)
    (sessions : list SessionT) (contrast : ContrastT) (cfg : Config)
    (freq_scores tf_scores : Loading.Store) (tf : Tf) (entropy : nat → G) :
  clusters_partition_data →
  (2 ≤ length subjects)%nat →
  sessions ≠ [] →
  (1 ≤ n_boot cfg)%nat →
  (1 ≤ n_freq_windows tf)%nat →
  (1 ≤ n_time_windows tf)%nat →
  Loading.only_missing freq_scores (Loading.product subjects sessions) →
  Loading.only_missing tf_scores (Loading.product subjects sessions) →
  Loading.well_formed tf_scores →
  ∃ r lg verdict,
    group_analysis subjects sessions contrast cfg freq_scores tf_scores tf entropy
    = (Returned (Some r), lg)
    ∧ (∃ X threshold,
         (t_clust r, clusters r, p_values r)
         = cluster_outputs
             (permutation_cluster_1samp_test (entropy 1%nat) X threshold
                (n_permutations cfg)))
    ∧ length (p_clust r) = (n_freq_windows tf * n_time_windows tf)%nat
    ∧ (∀ i cl p k, clusters r !! i = Some cl → p_values r !! i = Some p →
                   cl !! k = Some true → p_clust r !! k = Some p)
    ∧ (∀ k, (k < n_freq_windows tf * n_time_windows tf)%nat →
            (∀ cl, cl ∈ clusters r → cl !! k ≠ Some true) →
            p_clust r !! k = Some 1%Q)
    ∧ last (report r) = Some (FigStats (t_clust r) (Np.Fin <$> p_clust r))
    ∧ (∃ lg0, lg = lg0 ++ [Log Info (MsgFoundClusters (length (p_values r)));
                           Log Info verdict;
                           Log Info MsgReportSaved; Log Info MsgGroupFinished])
    ∧ (verdict = MsgSignificant
       ↔ ∃ p, p ∈ p_values r ∧ (p <= cluster_stats_alpha cfg)%Q)
    ∧ (verdict = MsgNotSignificant
       ↔ ¬ ∃ p, p ∈ p_values r ∧ (p <= cluster_stats_alpha cfg)%Q).
Proof.
  intros Hpart Hsub Hses _ Hnf Hnt Hmf Hmt Hwf. unfold group_analysis.
  rewrite decide_False by lia.
  set (nf := n_freq_windows tf) in *. set (nt := n_time_windows tf) in *.
  assert (Hsize : Loading.size_of [nf; nt] = (nf * nt)%nat) by (simpl; lia).
  assert (Hprod : Loading.product subjects sessions ≠ []).
  { intros Hnil. pose proof (Loading.length_product subjects sessions) as Hl.
    rewrite Hnil in Hl. simpl in Hl. destruct sessions; [done|]. simpl in Hl. nia. }
  rewrite !Loading.load_and_average_stack by done. cbn [stacked averaged obind].
  set (stack_f := Loading.slot_data freq_scores [nf] <$> Loading.product subjects sessions).
  set (stack_tf := Loading.slot_data tf_scores [nf; nt]
                   <$> Loading.product subjects sessions).
  assert (Hsf : stack_f ≠ []).
  { subst stack_f. intros Hnil. apply fmap_nil_inv in Hnil. done. }
  destruct (compute_conf_inter_returns stack_f subjects contrast cfg tf
              (entropy 0%nat) Hsf) as (stats & Hstats & _).
  rewrite Hstats.
  set (X := (λ slot : list Np.fl, sub_chance <$> slot) <$> stack_tf).
  assert (HX : X ≠ []).
  { subst X stack_tf. intros Hnil. do 2 apply fmap_nil_inv in Hnil. done. }
  assert (Hrect : Forall (λ slot, length slot = (nf * nt)%nat) X).
  { subst X stack_tf. apply Forall_fmap, Forall_fmap, Forall_forall.
    intros [sub ses] Hin. simpl. rewrite length_fmap, <- Hsize.
    apply Loading.slot_data_length; [done|]. intros e. by apply Hmt. }
  set (threshold := t_ppf (1 - cluster_t_dist_alpha_thres cfg)
                          (Z.of_nat (length subjects) - 1)).
  destruct (Hpart (entropy 1%nat) X threshold (n_permutations cfg) (nf * nt)%nat
              HX Hrect) as (Hlen & Hcl & Hdisj).
  destruct (permutation_cluster_1samp_test (entropy 1%nat) X threshold
              (n_permutations cfg)) as [[[tc cls] ps] h0] eqn:Hperm.
  cbn [fst snd] in Hlen, Hcl, Hdisj.
  destruct (fill_p_clust_cells (nf * nt) cls ps Hlen Hcl Hdisj)
    as (grid & Hgrid & Hglen & Hin & Hout).
  rewrite Hgrid.
  eexists _, _, (significance_message ps (cluster_stats_alpha cfg)).
  split; [reflexivity|].
  cbn [report p_clust t_clust clusters p_values].
  split; [exists X, threshold; by rewrite Hperm|].
  split; [done|]. split; [done|]. split; [done|]. split; [done|].
  split; [eexists; rewrite !app_assoc; rewrite <- (app_assoc _ [_; _] [_; _]);
          reflexivity|].
  split; [apply significance_message_iff|].
  rewrite <- significance_message_iff. unfold significance_message.
  by destruct (_ || _).
Qed.

(** *** Further properties of [compute_conf_inter] *)



Lemma draw_rows_length (g : G) (a : list Np.fl) (rows cols : nat) :
  length (draw_rows g a rows cols).1 = rows.
Proof.
  revert g. induction rows as [|rows IH]; intros g; simpl; [done|].
  destruct (draw g a cols) as [r g1]. specialize (IH g1).
  destruct (draw_rows g1 a rows cols) as [rs g2]. simpl in *. by rewrite IH.
Qed.

Lemma var_ddof1_short (l : list Np.fl) :
  (length l ≤ 1)%nat → Np.var_ddof1 l = Np.NaN.
Proof.
  destruct l as [|[|q] [|y l]]; simpl; try done; lia.
Qed.

(** X18.  With a single bootstrap resample there is no spread to measure:
    the standard error is NaN in every frequency bin, whatever the scores
    and the generator. *)
Theorem compute_conf_inter_single_resample (mean_scores : list (list Np.fl))
    (subjects : list string) (contrast : ContrastT) (cfg : Config) (tf : Tf)
    (entropy : G) (j : nat) :
  mean_scores ≠ [] →
  n_boot cfg = 1%nat →
  (j < n_freq_windows tf)%nat →
  ∃ stats,
    compute_conf_inter mean_scores subjects contrast cfg tf entropy = Returned stats
    ∧ mean_se_sq stats !! j = Some Np.NaN.
Proof.
  intros Hne Hboot Hj.
  destruct (compute_conf_inter_returns mean_scores subjects contrast cfg tf entropy Hne)
    as (stats & Hret & _ & _ & _ & Hbins).
  exists stats. split; [done|].
  destruct (Hbins j Hj) as (gk & Hse & _). rewrite Hse. f_equal. cbn.
  apply var_ddof1_short. rewrite length_fmap, draw_rows_length. lia.
Qed.

Lemma nth_all_nan (a : list Np.fl) (i : nat) :
  Forall (λ x, x = Np.NaN) a → nth i a Np.NaN = Np.NaN.
Proof.
  intros Hall. revert i. induction Hall as [|x a -> _ IH]; intros [|i]; simpl; auto.
Qed.

Lemma draw_all_nan (g : G) (a : list Np.fl) (k : nat) :
  Forall (λ x, x = Np.NaN) a → (draw g a k).1 = replicate k Np.NaN.
Proof.
  intros Hall. revert g. induction k as [|k IH]; intros g; simpl; [done|].
  destruct (integers g (length a)) as [i g1]. specialize (IH g1).
  destruct (draw g1 a k) as [xs g2]. simpl in *.
  by rewrite IH, nth_all_nan.
Qed.

Lemma draw_rows_all_nan (g : G) (a : list Np.fl) (rows cols : nat) :
  Forall (λ x, x = Np.NaN) a →
  (draw_rows g a rows cols).1 = replicate rows (replicate cols Np.NaN).
Proof.
  intros Hall. revert g. induction rows as [|rows IH]; intros g; simpl; [done|].
  pose proof (draw_all_nan g a cols Hall) as Hd.
  destruct (draw g a cols) as [r g1]. specialize (IH g1).
  destruct (draw_rows g1 a rows cols) as [rs g2]. simpl in *.
  by rewrite Hd, IH.
Qed.

Lemma all_fin_replicate_nan (n : nat) :
  Np.all_fin (replicate n Np.NaN) = if decide (n = 0%nat) then Some [] else None.
Proof. by destruct n. Qed.

Lemma mean_replicate_nan (n : nat) : Np.mean (replicate n Np.NaN) = Np.NaN.
Proof. unfold Np.mean. rewrite all_fin_replicate_nan. by case_decide. Qed.

(** X19.  The bootstrap is not NaN-aware: in a frequency bin where every
    subject's score is NaN (all files missing, say), the mean, the minimum,
    the maximum, the standard error and both interval bounds are NaN,
    whatever the generator draws. *)
Theorem compute_conf_inter_all_nan_scores (mean_scores : list (list Np.fl))
    (subjects : list string) (contrast : ContrastT) (cfg : Config) (tf : Tf)
    (entropy : G) (j : nat) :
  mean_scores ≠ [] →
  (1 ≤ n_boot cfg)%nat →
  (j < n_freq_windows tf)%nat →
  Forall (λ x, x = Np.NaN) (Np.column mean_scores j) →
  ∃ stats,
    compute_conf_inter mean_scores subjects contrast cfg tf entropy = Returned stats
    ∧ mean stats !! j = Some Np.NaN
    ∧ mean_min stats !! j = Some Np.NaN
    ∧ mean_max stats !! j = Some Np.NaN
    ∧ mean_se_sq stats !! j = Some Np.NaN
    ∧ mean_ci_lower stats !! j = Some Np.NaN
    ∧ mean_ci_upper stats !! j = Some Np.NaN.
Proof.
  intros Hne _ Hj Hall.
  destruct (compute_conf_inter_returns mean_scores subjects contrast cfg tf entropy Hne)
    as (stats & Hret & Hmean & Hmin & Hmax & Hbins).
  exists stats. split; [done|].
  destruct (Hbins j Hj) as (gk & Hse & Hlo & Hhi).
  rewrite Hse, Hlo, Hhi, Hmean, Hmin, Hmax. unfold Loading.nanmean_axis0.
  rewrite !lookup_fmap_seq by done. cbn.
  rewrite (draw_rows_all_nan gk _ _ _ Hall).
  rewrite fmap_replicate, mean_replicate_nan.
  assert (Hcol : Np.NaN ∈ Np.column mean_scores j).
  { pose proof (column_nonempty mean_scores j Hne) as Hc.
    destruct (Np.column mean_scores j) as [|x col]; [done|].
    apply Forall_cons in Hall as [-> _]. apply list_elem_of_here. }
  unfold Np.minimum_of, Np.maximum_of, Np.var_ddof1, Np.quantile.
  rewrite (all_fin_nan _ Hcol), all_fin_replicate_nan.
  split; [f_equal; by apply Loading.nanmean_nan_iff|].
  by case_decide.
Qed.

(** *** Further properties of [group_analysis] *)



End Analysis.

(** *** A concrete instance for the examples

    The examples below run the functions on small inputs.  They need some
    generator and some statistical routines in place of NumPy's, SciPy's
    and MNE's: a linear congruential generator, and stand-ins that return
    no t-values and report the whole grid as one cluster whose p-value is
    read off the first draw of the generator the routine is handed. *)

Definition demo_seed_rng (s : Z) : Z := s mod 2147483648.

Definition demo_integers (g : Z) (n : nat) : nat * Z :=
  (Z.to_nat ((g / 65536) mod Z.of_nat n),
   (g * 1103515245 + 12345) mod 2147483648).

Definition demo_ttest_1samp (X : list (list Np.fl)) : list Np.fl * list Np.fl :=
  ([], []).

Definition demo_t_ppf (q : Q) (df : Z) : Np.fl := Np.Fin 2.

Definition demo_permutation_test (g : Z) (X : list (list Np.fl)) (threshold : Np.fl)
    (n : nat) : list Np.fl * list (list bool) * list Q * list Np.fl :=
  ([], [replicate (length (hd [] X)) true],
   [(inject_Z (Z.of_nat (demo_integers g 100).1) + 1) / 100]%Q, []).

Definition demo_cfg : Config :=
  MkConfig "meg" true 3 1024 (Some 42) (5 # 100) (5 # 100).

(** Two frequency windows and one time window. *)
Definition demo_tf : Tf := MkTf [8; 10; 12]%Q [0; 1 # 2]%Q.

Definition demo_contrast : ContrastT := ([1], [2]).

(** The persisted time-frequency scores of the three subjects of
    [Loading.demo_store]. *)
Definition demo_tf_store : Loading.Store := λ sub ses,
  if decide (sub = "01"%string)
  then Loading.Loaded
         (Loading.MkArray [2%nat; 1%nat] [Np.Fin (6 # 10); Np.Fin (7 # 10)])
  else if decide (sub = "03"%string)
  then Loading.Loaded
         (Loading.MkArray [2%nat; 1%nat] [Np.Fin (8 # 10); Np.Fin (5 # 10)])
  else Loading.LoadRaised FileNotFoundError.

Definition demo_group_analysis (subjects : list string) (entropy : nat → Z)
    : outcome (option GroupResult) * list log_entry :=
  group_analysis Z demo_seed_rng demo_integers demo_ttest_1samp demo_t_ppf
    demo_permutation_test subjects [None] demo_contrast demo_cfg
    Loading.demo_store demo_tf_store demo_tf entropy.

Lemma group_analysis_needs_two_subjects_witness :
  [@None string] ≠ []
  ∧ (((length ["01"%string] * length [@None string] < 2)%nat →
        demo_group_analysis ["01"%string] (λ _, 7)
        = (Returned None, [Log Info MsgRunningGroup; Log Warning MsgOneSubject]))
     ∧ (length ["01"%string] = 1%nat →
        demo_group_analysis ["01"%string] (λ _, 7)
        = (Returned None, [Log Info MsgRunningGroup; Log Warning MsgOneSubject]))
     ∧ ((demo_group_analysis ["01"%string] (λ _, 7)).1 ≠ Returned None →
        (2 ≤ length ["01"%string] * length [@None string])%nat)).
Proof.
  split; [done|].
  apply (group_analysis_needs_two_subjects Z demo_seed_rng demo_integers
           demo_ttest_1samp demo_t_ppf demo_permutation_test).
  done.
Defined.

(** A stand-in for the permutation test that reports one cluster, made of
    the first cell of the grid. *)
Definition demo_permutation_test_first_cell (g : Z) (X : list (list Np.fl))
    (threshold : Np.fl) (n : nat)
    : list Np.fl * list (list bool) * list Q * list Np.fl :=
  ([],
   [take (length (hd [] X)) (true :: replicate (length (hd [] X)) false)],
   [(inject_Z (Z.of_nat (demo_integers g 100).1) + 1) / 100]%Q, []).

Lemma demo_first_cell_partition :
  clusters_partition_data Z demo_permutation_test_first_cell.
Proof.
  intros g X threshold n size HX Hall. unfold demo_permutation_test_first_cell.
  cbn [fst snd]. destruct X as [|slot X]; [done|].
  apply Forall_cons in Hall as [Hslot _]. cbn [hd]. split; [done|]. split.
  - repeat constructor. rewrite length_take. simpl. rewrite length_replicate. lia.
  - intros i j cl1 cl2 k Hij H1 H2 _ _.
    apply lookup_lt_Some in H1, H2. simpl in H1, H2. lia.
Qed.

Definition demo_group_analysis_first_cell (subjects : list string)
    (entropy : nat → Z) : outcome (option GroupResult) * list log_entry :=
  group_analysis Z demo_seed_rng demo_integers demo_ttest_1samp demo_t_ppf
    demo_permutation_test_first_cell subjects [None] demo_contrast demo_cfg
    Loading.demo_store demo_tf_store demo_tf entropy.

Lemma demo_tf_store_only_missing (items : list (string * SessionT)) :
  Loading.only_missing demo_tf_store items.
Proof.
  intros sub ses e _. unfold demo_tf_store. repeat case_decide; congruence.
Qed.

Lemma demo_tf_store_well_formed : Loading.well_formed demo_tf_store.
Proof.
  intros sub ses arr. unfold demo_tf_store.
  repeat case_decide; intros [= <-]; reflexivity.
Qed.

Lemma cluster_grid_and_significance_witness :
  ∃ r lg verdict,
    demo_group_analysis_first_cell ["01"; "02"; "03"]%string (λ _, 7)
    = (Returned (Some r), lg)
    ∧ (∃ X threshold,
         (t_clust r, clusters r, p_values r)
         = cluster_outputs
             (demo_permutation_test_first_cell 7 X threshold
                (n_permutations demo_cfg)))
    ∧ length (p_clust r) = (n_freq_windows demo_tf * n_time_windows demo_tf)%nat
    ∧ (∀ i cl p k, clusters r !! i = Some cl → p_values r !! i = Some p →
                   cl !! k = Some true → p_clust r !! k = Some p)
    ∧ (∀ k, (k < n_freq_windows demo_tf * n_time_windows demo_tf)%nat →
            (∀ cl, cl ∈ clusters r → cl !! k ≠ Some true) →
            p_clust r !! k = Some 1%Q)
    ∧ last (report r) = Some (FigStats (t_clust r) (Np.Fin <$> p_clust r))
    ∧ (∃ lg0, lg = lg0 ++ [Log Info (MsgFoundClusters (length (p_values r)));
                           Log Info verdict;
                           Log Info MsgReportSaved; Log Info MsgGroupFinished])
    ∧ (verdict = MsgSignificant
       ↔ ∃ p, p ∈ p_values r ∧ (p <= cluster_stats_alpha demo_cfg)%Q)
    ∧ (verdict = MsgNotSignificant
       ↔ ¬ ∃ p, p ∈ p_values r ∧ (p <= cluster_stats_alpha demo_cfg)%Q).
Proof.
  apply (cluster_grid_and_significance Z demo_seed_rng demo_integers
           demo_ttest_1samp demo_t_ppf demo_permutation_test_first_cell
           ["01"; "02"; "03"]%string [None] demo_contrast demo_cfg
           Loading.demo_store demo_tf_store demo_tf (λ _, 7)).
  - apply demo_first_cell_partition.
  - vm_compute. lia.
  - done.
  - vm_compute. lia.
  - vm_compute. lia.
  - vm_compute. lia.
  - apply Loading.demo_store_only_missing.
  - apply demo_tf_store_only_missing.
  - apply demo_tf_store_well_formed.
Defined.

(** On these files the cluster holds the first of the two cells, its
    p-value is 1/100, and the run declares the result significant. *)
Lemma demo_group_analysis_grid_and_verdict :
  ∃ r lg,
    demo_group_analysis_first_cell ["01"; "02"; "03"]%string (λ _, 7)
    = (Returned (Some r), lg)
    ∧ drop (length lg - 4) lg
      = [Log Info (MsgFoundClusters 1); Log Info MsgSignificant;
         Log Info MsgReportSaved; Log Info MsgGroupFinished]
    ∧ clusters r = [[true; false]]
    ∧ p_values r = [(1 # 1) / 100]%Q
    ∧ p_clust r = [(1 # 1) / 100; 1]%Q.
Proof.
  eexists _, _. split; [vm_compute; reflexivity|].
  split; [|split; [|split]]; vm_compute; reflexivity.
Qed.

(** Two subjects and sessions, one frequency window. *)
Definition demo_tf1 : Tf := MkTf [8; 12]%Q [0; 1 # 2]%Q.

Definition demo_scores_nan : list (list Np.fl) :=
  [[Np.Fin (6 # 10)]; [Np.NaN]; [Np.Fin (8 # 10)]].

Lemma compute_conf_inter_nan_bin_witness :
  demo_scores_nan ≠ []
  ∧ (0 < n_freq_windows demo_tf1)%nat
  ∧ Np.NaN ∈ Np.column demo_scores_nan 0
  ∧ ∃ stats,
      compute_conf_inter Z demo_seed_rng demo_integers demo_scores_nan
        ["01"; "02"; "03"]%string demo_contrast demo_cfg demo_tf1 7
      = Returned stats
      ∧ mean_min stats !! 0%nat = Some Np.NaN
      ∧ mean_max stats !! 0%nat = Some Np.NaN
      ∧ mean stats !! 0%nat = Some (Np.nanmean (Np.column demo_scores_nan 0))
      ∧ ∀ q qs, finite_values (Np.column demo_scores_nan 0) = q :: qs →
          Np.fl_eq (Np.nanmean (Np.column demo_scores_nan 0))
                   (Np.Fin (Np.Qsum (q :: qs) / Np.Qlen (q :: qs))).
Proof.
  assert (H1 : demo_scores_nan ≠ []) by done.
  assert (H2 : (0 < n_freq_windows demo_tf1)%nat) by (vm_compute; lia).
  assert (H3 : Np.NaN ∈ Np.column demo_scores_nan 0)
    by (apply list_elem_of_further, list_elem_of_here).
  split; [done|]. split; [done|]. split; [done|].
  exact (compute_conf_inter_nan_bin Z demo_seed_rng demo_integers demo_scores_nan
           ["01"; "02"; "03"]%string demo_contrast demo_cfg demo_tf1 7 0%nat
           H1 H2 H3).
Defined.

Definition demo_scores : list (list Np.fl) :=
  [[Np.Fin (6 # 10)]; [Np.Fin (7 # 10)]; [Np.Fin (8 # 10)]].

(** Three subjects and two frequency windows; the second bin is served
    after the nine draws of the first. *)
Definition demo_scores_two_bins : list (list Np.fl) :=
  [[Np.Fin (6 # 10); Np.Fin (7 # 10)];
   [Np.Fin (7 # 10); Np.Fin (5 # 10)];
   [Np.Fin (8 # 10); Np.Fin (6 # 10)]].


(** The indices drawn for the two bins with the seed 42, and the resamples
    of the second bin. *)
Lemma demo_bootstrap_draws :
  (indices Z demo_integers (demo_seed_rng 42) 3 9).1
  = [0; 1; 2; 2; 0; 2; 1; 0; 1]%nat
  ∧ (indices Z demo_integers (generator_at Z demo_integers (demo_seed_rng 42) 3 9 1)
       3 9).1
    = [1; 1; 2; 0; 0; 0; 1; 2; 0]%nat
  ∧ (draw_rows Z demo_integers
       (generator_at Z demo_integers (demo_seed_rng 42) 3 9 1)
       (Np.column demo_scores_two_bins 1) 3 3).1
    = [[Np.Fin (5 # 10); Np.Fin (5 # 10); Np.Fin (6 # 10)];
       [Np.Fin (7 # 10); Np.Fin (7 # 10); Np.Fin (7 # 10)];
       [Np.Fin (5 # 10); Np.Fin (6 # 10); Np.Fin (7 # 10)]].
Proof. repeat split; vm_compute; reflexivity. Qed.


(** Two subjects whose score files are both missing: the stack holds NaN
    only.  Whatever is drawn, every resample consists of NaN, so the
    bootstrapped means, the standard error and both interval bounds are NaN,
    and so is the NaN-aware mean. *)
Definition demo_scores_all_nan : list (list Np.fl) := [[Np.NaN]; [Np.NaN]].


(** Two runs on the same files with the same seed, 42: the entropy of the
    first is 7, that of the second 1000000. *)
Lemma group_analysis_seed_reaches_bootstrap_only_witness :
  ∃ r r' lg lg',
    demo_group_analysis ["01"; "02"; "03"]%string (λ _, 7) = (Returned (Some r), lg)
    ∧ demo_group_analysis ["01"; "02"; "03"]%string (λ _, 1000000)
      = (Returned (Some r'), lg')
    ∧ contrast_score_stats r = contrast_score_stats r'
    ∧ ∃ X threshold,
        (t_clust r, clusters r, p_values r)
        = cluster_outputs (demo_permutation_test 7 X threshold
                             (n_permutations demo_cfg))
        ∧ (t_clust r', clusters r', p_values r')
          = cluster_outputs (demo_permutation_test 1000000 X threshold
                               (n_permutations demo_cfg)).
Proof.
  eexists _, _, _, _.
  split; [vm_compute; reflexivity|]. split; [vm_compute; reflexivity|].
  eapply (group_analysis_seed_reaches_bootstrap_only Z demo_seed_rng demo_integers
            demo_ttest_1samp demo_t_ppf demo_permutation_test
            ["01"; "02"; "03"]%string [None] demo_contrast demo_cfg
            Loading.demo_store demo_tf_store demo_tf (λ _, 7) (λ _, 1000000) 42).
  - reflexivity.
  - vm_compute; reflexivity.
  - vm_compute; reflexivity.
Defined.

(** With these stand-ins the two runs report different cluster p-values. *)
Lemma demo_runs_report_different_p_values :
  ∃ r r' lg lg',
    demo_group_analysis ["01"; "02"; "03"]%string (λ _, 7) = (Returned (Some r), lg)
    ∧ demo_group_analysis ["01"; "02"; "03"]%string (λ _, 1000000)
      = (Returned (Some r'), lg')
    ∧ p_values r = [(1 # 1) / 100]%Q
    ∧ p_values r' = [(16 # 1) / 100]%Q.
Proof.
  eexists _, _, _, _.
  split; [vm_compute; reflexivity|]. split; [vm_compute; reflexivity|].
  split; vm_compute; reflexivity.
Qed.

(** Two clusters that share the second cell of a grid of four: the cell
    holds the p-value of the second cluster. *)
Definition demo_overlapping_clusters : list (list bool) :=
  [[true; true; false; false]; [false; true; true; false]].

Lemma fill_p_clust_last_cluster_wins_witness :
  ∃ grid, fill_p_clust 4 demo_overlapping_clusters demo_p_values = Returned grid
          ∧ grid !! 1%nat = Some (40 # 100)%Q.
Proof.
  apply (fill_p_clust_last_cluster_wins 4 demo_overlapping_clusters demo_p_values
           1 1 [false; true; true; false] (40 # 100)%Q).
  - repeat constructor.
  - reflexivity.
  - reflexivity.
  - reflexivity.
  - intros [|[|j]] cl' p' Hj Hcl; [lia|lia|done].
Defined.

(** A configuration with a single bootstrap resample. *)
Definition demo_cfg_one_boot : Config :=
  MkConfig "meg" true 1 1024 (Some 42) (5 # 100) (5 # 100).

Lemma compute_conf_inter_single_resample_witness :
  ∃ stats,
    compute_conf_inter Z demo_seed_rng demo_integers demo_scores
      ["01"; "02"; "03"]%string demo_contrast demo_cfg_one_boot demo_tf1 7
    = Returned stats
    ∧ mean_se_sq stats !! 0%nat = Some Np.NaN.
Proof.
  apply (compute_conf_inter_single_resample Z demo_seed_rng demo_integers
           demo_scores ["01"; "02"; "03"]%string demo_contrast demo_cfg_one_boot
           demo_tf1 7 0%nat).
  - done.
  - reflexivity.
  - vm_compute. lia.
Defined.


Lemma compute_conf_inter_all_nan_scores_witness :
  ∃ stats,
    compute_conf_inter Z demo_seed_rng demo_integers demo_scores_all_nan
      ["01"; "02"]%string demo_contrast demo_cfg demo_tf1 7
    = Returned stats
    ∧ mean stats !! 0%nat = Some Np.NaN
    ∧ mean_min stats !! 0%nat = Some Np.NaN
    ∧ mean_max stats !! 0%nat = Some Np.NaN
    ∧ mean_se_sq stats !! 0%nat = Some Np.NaN
    ∧ mean_ci_lower stats !! 0%nat = Some Np.NaN
    ∧ mean_ci_upper stats !! 0%nat = Some Np.NaN.
Proof.
  apply (compute_conf_inter_all_nan_scores Z demo_seed_rng demo_integers
           demo_scores_all_nan ["01"; "02"]%string demo_contrast demo_cfg
           demo_tf1 7 0%nat).
  - done.
  - vm_compute. lia.
  - vm_compute. lia.
  - vm_compute. repeat constructor.
Defined.



End Group.
